(** * ETS2 Company Logo Downloader: the harvest routine

    A shallow embedding of [LogoDownloaderWorker.run]
    (src/ETS2CompanyLogoDownloader.py) and the properties of it that the
    specification states.

    The worker talks to the network, the file system, the GUI (two Qt
    signals) and a flag written by the GUI thread.  The embedding makes the
    outside world an explicit record of oracles ([World]) and the effects of
    a run an explicit, ordered list of events ([Event]); [run] is then a
    function from a world to the trace of an invocation in which every call
    returns or raises.  [requests.get] has no timeout: [harvest] cuts the
    trace at the first request that a [Network] never answers.  What the
    events do to the disk is a relation ([fs_step]), since a call that
    raises may have done part of its work.

    Python's [int(((idx + 1) / total_images) * 100)] is double-precision
    arithmetic.  Module [Binary64] models the two operations involved as
    exact rationals rounded to nearest-even at 53 bits, and the model is
    checked against the Standard Library's IEEE 754 specification
    ([SpecFloat]) on every pair [idx < total <= 120].

    The slots of the window ([FullSizeLogoDownloader]) are functions on the
    state of its widgets; module [Window] relates them to the signals of a
    run. *)

From Stdlib Require Import ZArith QArith Qround Qpower Lia Lqa.
From Stdlib Require Import String Ascii List Sorted DecimalString DecimalNat SpecFloat.
From stdpp Require Import gmap strings.

(** ** Double-precision arithmetic *)

Module Binary64.
Local Open Scope Q_scope.

(** Number of significand bits of a Python [float]. *)
Definition prec : Z := 53.

(** [ilog2 x] is the binary exponent of a positive rational:
    [2 ^ ilog2 x <= x < 2 ^ (ilog2 x + 1)]. *)
Definition ilog2 (x : Q) : Z :=
  let d := (Z.log2 (Qnum x) - Z.log2 (Zpos (Qden x)))%Z in
  if Qle_bool (2 ^ d) x then d else (d - 1)%Z.

(** Nearest integer, ties to the even one. *)
Definition rne (x : Q) : Z :=
  let f := Qfloor x in
  match Qcompare (x - inject_Z f) (1 # 2) with
  | Lt => f
  | Gt => (f + 1)%Z
  | Eq => if Z.even f then f else (f + 1)%Z
  end.

(** Nearest number with a 53-bit significand.  The exponent is unbounded:
    the quotients and products of [run] lie between [2 ^ -64] and [100],
    far from overflow and from the subnormal range. *)
Definition round_pos (x : Q) : Q :=
  let e := (ilog2 x - (prec - 1))%Z in
  inject_Z (rne (x * 2 ^ (- e))) * 2 ^ e.

Definition round (x : Q) : Q :=
  match Qcompare x 0 with
  | Eq => 0
  | Gt => round_pos x
  | Lt => - round_pos (- x)
  end.

(** [a / b] on Python integers: the correctly rounded quotient. *)
Definition truediv (a b : Z) : Q := round (inject_Z a / inject_Z b).

(** [x * y] on floats. *)
Definition mul (x y : Q) : Q := round (x * y).

(** [int(x)]: truncation toward zero. *)
Definition trunc (x : Q) : Z := if Qle_bool 0 x then Qfloor x else Qceiling x.

End Binary64.

(** [int(((idx + 1) / total_images) * 100)] *)
Definition progress_percent (idx total_images : nat) : Z :=
  Binary64.trunc
    (Binary64.mul (Binary64.truediv (Z.of_nat idx + 1) (Z.of_nat total_images)) 100).

(** The same expression through [SpecFloat], the Standard Library's
    executable IEEE 754 specification, at binary64. *)
Module IEEE.

Definition of_Z (z : Z) : spec_float := binary_normalize 53 1024 z 0 false.

Definition to_Z (f : spec_float) : option Z :=
  match f with
  | S754_zero _ => Some 0%Z
  | S754_finite s m e =>
      let a := match e with
               | Z0 => Zpos m
               | Zpos p => (Zpos m * 2 ^ Zpos p)%Z
               | Zneg p => (Zpos m / 2 ^ Zpos p)%Z
               end in
      Some (if s then (- a)%Z else a)
  | _ => None
  end.

Definition progress_percent (idx total_images : nat) : option Z :=
  to_Z (SFmul 53 1024
          (SFdiv 53 1024 (of_Z (Z.of_nat idx + 1)) (of_Z (Z.of_nat total_images)))
          (of_Z 100)).

End IEEE.

Definition agrees_with_IEEE (idx total_images : nat) : bool :=
  match IEEE.progress_percent idx total_images with
  | Some z => Z.eqb z (progress_percent idx total_images)
  | None => false
  end.

Definition agrees_with_IEEE_upto (n : nat) : bool :=
  forallb (fun t => forallb (fun i => agrees_with_IEEE i (S t)) (seq 0 (S t))) (seq 0 n).

(** What the specification writes: [round(100 * (index+1) / totalCandidates)]. *)
Definition spec_progress (idx total : nat) : Z :=
  Binary64.rne (inject_Z (100 * (Z.of_nat idx + 1)) / inject_Z (Z.of_nat total)).

(** ** Strings

    A Python [str] is modelled by [string]; a character is a code point
    below 256. *)

Definition code (c : ascii) : nat := nat_of_ascii c.

Definition between (lo hi : nat) (c : ascii) : bool :=
  Nat.leb lo (code c) && Nat.leb (code c) hi.

(** [c.isalnum()] on the code points below 256. *)
Definition isalnum (c : ascii) : bool :=
  between 48 57 c || between 65 90 c || between 97 122 c
  || between 170 170 c || between 178 179 c || between 181 181 c
  || between 185 186 c || between 188 190 c
  || between 192 214 c || between 216 246 c || between 248 255 c.

(** [c.isspace()] on the code points below 256. *)
Definition isspace (c : ascii) : bool :=
  between 9 13 c || between 28 32 c || between 133 133 c || between 160 160 c.

Definition is_empty (s : string) : bool :=
  match s with EmptyString => true | String _ _ => false end.

(** [s.startswith(p)] *)
Definition startswith (s p : string) : bool := String.prefix p s.

(** [sub in s] *)
Fixpoint contains (sub s : string) : bool :=
  String.prefix sub s ||
  match s with
  | EmptyString => false
  | String _ rest => contains sub rest
  end.

(** [s.split(sep)[0]] for a non-empty [sep] *)
Fixpoint split_head (sep s : string) : string :=
  if String.prefix sep s then EmptyString
  else match s with
       | EmptyString => EmptyString
       | String c rest => String c (split_head sep rest)
       end.

(** [os.path.basename(p)] of [posixpath]: what follows the last slash. *)
Fixpoint basename (p : string) : string :=
  match p with
  | EmptyString => EmptyString
  | String c rest =>
      if contains "/" rest then basename rest
      else if Ascii.eqb c "/" then rest else p
  end.

Fixpoint filter_chars (f : ascii -> bool) (s : string) : string :=
  match s with
  | EmptyString => EmptyString
  | String c rest =>
      if f c then String c (filter_chars f rest) else filter_chars f rest
  end.

(** [s.rstrip()] *)
Fixpoint rstrip (s : string) : string :=
  match s with
  | EmptyString => EmptyString
  | String c rest =>
      let rest' := rstrip rest in
      if isspace c && is_empty rest' then EmptyString else String c rest'
  end.

Fixpoint ends_with_slash (s : string) : bool :=
  match s with
  | EmptyString => false
  | String c EmptyString => Ascii.eqb c "/"
  | String _ rest => ends_with_slash rest
  end.

(** [os.path.join(a, b)] of [posixpath] *)
Definition path_join (a b : string) : string :=
  if startswith b "/" then b
  else if is_empty a || ends_with_slash a then a +:+ b
  else a +:+ "/" +:+ b.

(** [str(n)] *)
Definition str_of_nat (n : nat) : string := NilEmpty.string_of_uint (Nat.to_uint n).

(** ** The world and the events of a run *)

Definition bytes := list Byte.byte.

(** An [img] tag as the loop reads it: [img.get("data-src")] and
    [img.get("src")], [None] when the attribute is missing. *)
Record Img := { data_src : option string; src : option string }.

(** [requests.get(self.url)], [raise_for_status()], [BeautifulSoup(...)]
    and [find_all("img")] together either produce the list of [img] tags or
    raise. *)
Inductive PageResult :=
| PageImages (images : list Img)
| PageRequestException (msg : string)
| PageException (msg : string).

(** What the calls of a run return or raise, when they do one or the other.
    [requests.get] may also never return: which requests do not is said
    apart, by a [Network], and [harvest] stops the run there. *)
Record World := {
  (** the page behind a URL *)
  page_get : string -> PageResult;
  (** [os.makedirs(path, exist_ok=True)]: [None], or the message of the
      [OSError] it raises *)
  makedirs : string -> option string;
  (** [requests.get(url).content] in iteration [idx]: [None] when it raises *)
  image_get : nat -> string -> option bytes;
  (** [open(path, "wb")] and [f.write(data)] in iteration [idx]: [false]
      when one of them raises *)
  file_write : nat -> string -> bytes -> bool;
  (** the value of [self.is_running] read at the top of iteration [idx];
      [stop()] on the GUI thread sets it to [False] *)
  is_running : nat -> bool
}.

Inductive Event :=
| EvPageGet (url : string)
| EvMakedirs (path : string) (ok : bool)
| EvProgress (percent : Z)
| EvStatus (msg : string)
| EvImageGet (idx : nat) (url : string)
| EvWrite (idx : nat) (path : string) (data : bytes) (ok : bool).

Inductive Exn :=
| RequestException (msg : string)
| OtherException (msg : string).

(** ** [LogoDownloaderWorker.run] *)

Definition logos_dirname : string := "Downloaded_Company_Logos".

(** [img.get("data-src") or img.get("src")] *)
Definition resolve_url (img : Img) : option string :=
  match data_src img with
  | Some s => if is_empty s then src img else Some s
  | None => src img
  end.

(** [img_url.split("/revision/")[0]] *)
Definition full_size_url (img_url : string) : string :=
  split_head "/revision/" img_url.

Definition keep_char (c : ascii) : bool :=
  isalnum c || Ascii.eqb c " " || Ascii.eqb c "." || Ascii.eqb c "_".

(** Lines 62 to 66: the file name of candidate [idx]. *)
Definition image_name (idx : nat) (url : string) : string :=
  let img_name := basename url in
  let img_name :=
    if is_empty img_name || negb (contains "." img_name)
    then "logo_" +:+ str_of_nat idx +:+ ".jpg"
    else img_name in
  rstrip (filter_chars keep_char img_name).

(** One iteration of the loop body after the cancellation check: the events
    it produces and whether [count] was incremented.  Every [continue]
    leaves the iteration without emitting progress. *)
Record Step := { step_events : list Event; step_saved : bool }.

Definition skipped (evs : list Event) : Step :=
  {| step_events := evs; step_saved := false |}.

Definition process (w : World) (total_images : nat) (logos_folder : string)
    (idx : nat) (img : Img) : Step :=
  match resolve_url img with
  | None => skipped []
  | Some img_url =>
      if is_empty img_url then skipped []
      else if startswith img_url "data:image" then skipped []
      else if negb (contains "/images/" img_url) then skipped []
      else
        let url := full_size_url img_url in
        match image_get w idx url with
        | None => skipped [EvImageGet idx url]
        | Some img_data =>
            if (Z.of_nat (length img_data) <? 5000)%Z
            then skipped [EvImageGet idx url]
            else
              let save_path := path_join logos_folder (image_name idx url) in
              if file_write w idx save_path img_data
              then {| step_events :=
                        [EvImageGet idx url;
                         EvWrite idx save_path img_data true;
                         EvProgress (progress_percent idx total_images)];
                      step_saved := true |}
              else skipped [EvImageGet idx url;
                            EvWrite idx save_path img_data false]
        end
  end.

Definition summary (count : nat) : string :=
  "Downloaded " +:+ str_of_nat count +:+ " logos to 'Downloaded_Company_Logos'.".

(** [for idx, img in enumerate(images)] from position [idx] on, followed by
    the two emissions after the loop. *)
Fixpoint loop (w : World) (total_images : nat) (logos_folder : string)
    (idx : nat) (images : list Img) (count : nat) : list Event :=
  match images with
  | [] => [EvProgress 100; EvStatus (summary count)]
  | img :: rest =>
      if is_running w idx then
        let st := process w total_images logos_folder idx img in
        step_events st ++
        loop w total_images logos_folder (S idx) rest
             (if step_saved st then S count else count)
      else [EvStatus "Download canceled."]
  end.

(** The body of the outer [try]: its events and the exception that leaves
    it, if any. *)
Definition run_try (w : World) (url save_folder : string) : list Event * option Exn :=
  match page_get w url with
  | PageRequestException e => ([EvPageGet url], Some (RequestException e))
  | PageException e => ([EvPageGet url], Some (OtherException e))
  | PageImages images =>
      let total_images := length images in
      if Nat.eqb total_images 0
      then ([EvPageGet url; EvStatus "No images found on the page."], None)
      else
        let logos_folder := path_join save_folder logos_dirname in
        match makedirs w logos_folder with
        | Some e =>
            ([EvPageGet url; EvMakedirs logos_folder false], Some (OtherException e))
        | None =>
            (EvPageGet url :: EvMakedirs logos_folder true :: EvProgress 0 ::
               loop w total_images logos_folder 0 images 0, None)
        end
  end.

(** The two [except] clauses. *)
Definition handler (e : option Exn) : list Event :=
  match e with
  | None => []
  | Some (RequestException msg) => [EvStatus ("Network Error: " +:+ msg)]
  | Some (OtherException msg) => [EvStatus ("Error: " +:+ msg)]
  end.

Definition run (w : World) (url save_folder : string) : list Event :=
  let '(evs, e) := run_try w url save_folder in evs ++ handler e.

(** ** Reading a trace *)

Definition progress_of (e : Event) : option Z :=
  match e with EvProgress p => Some p | _ => None end.

Definition status_of (e : Event) : option string :=
  match e with EvStatus s => Some s | _ => None end.

(** The loop iteration an image fetch or a file write belongs to. *)
Definition candidate_of (e : Event) : option nat :=
  match e with
  | EvImageGet idx _ => Some idx
  | EvWrite idx _ _ _ => Some idx
  | _ => None
  end.

Definition is_makedirs (e : Event) : bool :=
  match e with EvMakedirs _ _ => true | _ => false end.

(** [open(save_path, "wb")] was reached. *)
Definition is_write (e : Event) : bool :=
  match e with EvWrite _ _ _ _ => true | _ => false end.

(** [count += 1] was reached. *)
Definition is_saved (e : Event) : bool :=
  match e with EvWrite _ _ _ true => true | _ => false end.

(** The values sent on the [progress] signal, in order. *)
Definition progress_values (t : list Event) : list Z := omap progress_of t.

(** The messages sent on the [status_update] signal, in order. *)
Definition statuses (t : list Event) : list string := omap status_of t.

Definition saved_count (t : list Event) : nat := length (List.filter is_saved t).

Definition makedirs_count (t : list Event) : nat := length (List.filter is_makedirs t).

(** [climbs lo l]: starting from [lo], the values of [l] never decrease and
    never pass 100. *)
Fixpoint climbs (lo : Z) (l : list Z) : Prop :=
  match l with
  | [] => (lo <= 100)%Z
  | x :: rest => (lo <= x)%Z /\ climbs x rest
  end.

(** The events of the iterations alone, when none of them is cancelled. *)
Fixpoint body_events (w : World) (total_images : nat) (logos_folder : string)
    (idx : nat) (images : list Img) : list Event :=
  match images with
  | [] => []
  | img :: rest =>
      step_events (process w total_images logos_folder idx img) ++
      body_events w total_images logos_folder (S idx) rest
  end.

(** The indices, from [idx] on, of the candidates that are saved. *)
Fixpoint saved_indices (w : World) (total_images : nat) (logos_folder : string)
    (idx : nat) (images : list Img) : list nat :=
  match images with
  | [] => []
  | img :: rest =>
      (if step_saved (process w total_images logos_folder idx img) then [idx] else []) ++
      saved_indices w total_images logos_folder (S idx) rest
  end.

(** The loop runs to its end: the page is fetched, it has an image, the
    folder can be created and no check of the flag sees it cleared. *)
Definition completes (w : World) (url save_folder : string) : bool :=
  match page_get w url with
  | PageImages images =>
      negb (Nat.eqb (length images) 0)
      && match makedirs w (path_join save_folder logos_dirname) with
         | None => true
         | Some _ => false
         end
      && forallb (is_running w) (seq 0 (length images))
  | _ => false
  end.

(** ** The file system a trace leaves behind

    Paths are compared as strings.  An event says what the program asked
    of the disk and whether the call raised, not everything the disk did,
    so the effect of an event is a relation between the file system before
    and after it:
    - [os.makedirs(p, exist_ok=True)] touches no file and removes no
      directory; the directories it adds are [p] and parents of [p], which
      are prefixes of [p]; when it returns, [p] exists; when it raises, it
      may have created parents already, but not [p], whose [mkdir] is its
      last step;
    - [open(p, "wb")] followed by [write] puts the bytes at [p] when
      neither raises; when one raises, the file is as it was ([open]
      raised) or was created or truncated and holds some part of the bytes
      ([write] raised). *)

Record FS := { dirs : gset string; files : gmap string bytes }.

Definition fs_step (fs : FS) (e : Event) (fs' : FS) : Prop :=
  match e with
  | EvMakedirs p ok =>
      files fs' = files fs
      /\ (forall q, q ∈ dirs fs -> q ∈ dirs fs')
      /\ (ok = true -> p ∈ dirs fs')
      /\ (forall q, q ∈ dirs fs' ->
                    q ∈ dirs fs
                    \/ (String.prefix q p = true /\ (ok = false -> q <> p)))
  | EvWrite _ p d true =>
      dirs fs' = dirs fs /\ files fs' = <[p := d]> (files fs)
  | EvWrite _ p d false =>
      dirs fs' = dirs fs
      /\ (files fs' = files fs
          \/ exists partial, files fs' = <[p := partial]> (files fs))
  | _ => fs' = fs
  end.

(** [fs_run t fs fs']: the events of [t], in order, can lead from [fs] to
    [fs']. *)
Fixpoint fs_run (t : list Event) (fs fs' : FS) : Prop :=
  match t with
  | [] => fs' = fs
  | e :: rest => exists mid, fs_step fs e mid /\ fs_run rest mid fs'
  end.

Definition empty_fs : FS := {| dirs := ∅; files := ∅ |}.

(** [open(p, "wb")] was reached for the path [p]. *)
Definition writes_to (p : string) (e : Event) : bool :=
  match e with
  | EvWrite _ q _ _ => String.eqb q p
  | _ => false
  end.

(** What a write was asked to do, whether it raised or not. *)
Definition attempt_of (e : Event) : option (nat * string * bytes) :=
  match e with
  | EvWrite idx p d _ => Some (idx, p, d)
  | _ => None
  end.

Definition attempts (t : list Event) : list (nat * string * bytes) := omap attempt_of t.

(** The bytes of the last attempt on [p]. *)
Fixpoint last_to (p : string) (l : list (nat * string * bytes)) : option bytes :=
  match l with
  | [] => None
  | (_, q, d) :: rest =>
      match last_to p rest with
      | Some d' => Some d'
      | None => if String.eqb q p then Some d else None
      end
  end.

(** Every write of the trace went through. *)
Definition all_saved (t : list Event) : bool :=
  forallb (fun e => negb (is_write e) || is_saved e) t.

(** [os.makedirs] returned. *)
Definition is_created (e : Event) : bool :=
  match e with EvMakedirs _ true => true | _ => false end.

(** The calls of [os.makedirs] that returned. *)
Definition created_count (t : list Event) : nat := length (List.filter is_created t).

(** ** Requests that never return

    [requests.get] is called without a timeout (lines 24 and 56).  The
    oracles of a [World] say what a request returns or raises; a [Network]
    says which requests never return.  A run stops for ever in the first
    such request: what it did up to and including the call has happened,
    nothing after it does. *)






(** ** Concrete worlds *)

Definition payload (n : Z) : bytes := repeat Byte.x00 (Z.to_nat n).

Definition wiki_url : string :=
  "https://truck-simulator.fandom.com/wiki/Euro_Truck_Simulator_2_Companies".

Definition placeholder : string := "data:image/gif;base64,R0lGODlhAQABAIABAAAAAP///yH5BAEAAAEALAAAAAABAAEAQAICTAEAOw%3D%3D".

Definition logo1_url : string :=
  "https://static.wikia.nocookie.net/truck-simulator/images/logo1.png/revision/latest".

Definition home : string := "/home/user/Pictures".

(** A world with a reachable page and a working disk, where every image
    has [size] bytes. *)
Definition plain_world (images : list Img) (size : Z) (running : nat -> bool) : World :=
  {| page_get := fun _ => PageImages images;
     makedirs := fun _ => None;
     image_get := fun _ _ => Some (payload size);
     file_write := fun _ _ _ => true;
     is_running := running |}.

Definition inline_img : Img := {| data_src := None; src := Some placeholder |}.
Definition logo1_img : Img := {| data_src := Some logo1_url; src := Some placeholder |}.
Definition bare_img : Img := {| data_src := None; src := None |}.

(** The three-image scenario of the specification. *)
Definition scenario : World :=
  plain_world [inline_img; logo1_img; bare_img] 6000 (fun _ => true).

(** A page whose only image is inline. *)
Definition only_inline : World := plain_world [inline_img] 6000 (fun _ => true).

(** [stop()] arrives before the first check of the flag. *)
Definition stopped_at_start : World :=
  plain_world [inline_img; logo1_img; bare_img] 6000 (fun _ => false).

(** [stop()] arrives while the only candidate is being fetched: the check
    of iteration 0 has passed and there is no later one. *)
Definition stopped_during_last : World :=
  plain_world [logo1_img] 6000 (fun idx => Nat.eqb idx 0).

(** [stop()] arrives while the first of three candidates is being fetched. *)
Definition stopped_during_first : World :=
  plain_world [logo1_img; logo1_img; bare_img] 6000 (fun idx => Nat.eqb idx 0).

(** A page without any image. *)
Definition no_images : World := plain_world [] 6000 (fun _ => true).

(** An inline reference that is not of an image type and happens to contain
    the asset-path segment. *)
Definition inline_text_img : Img :=
  {| data_src := None; src := Some "data:text/plain;base64,QUJD/images/QUJD" |}.

Definition offline_images : World :=
  {| page_get := fun _ => PageImages [inline_text_img];
     makedirs := fun _ => None;
     image_get := fun _ _ => None;
     file_write := fun _ _ _ => true;
     is_running := fun _ => true |}.




(** The disk before the scenario, the disk after it, and the disk after a
    further run whose write was cut off right after [open]. *)
Definition logo1_path : string := "/home/user/Pictures/Downloaded_Company_Logos/logo1.png".

Definition disk_before : FS := {| dirs := {[ home ]}; files := ∅ |}.

Definition disk_after : FS :=
  {| dirs := {[ home; path_join home logos_dirname ]};
     files := {[ logo1_path := payload 6000 ]} |}.


(** An image whose deferred attribute is present and empty. *)
Definition empty_lazy_img : Img := {| data_src := Some EmptyString; src := Some logo1_url |}.

(** The three tests of lines 46 to 51, on the resolved URL. *)
Definition filtered_out (img : Img) : Prop :=
  resolve_url img = None \/
  exists u, resolve_url img = Some u /\
            (startswith u "data:image" = true \/ contains "/images/" u = false).

(** ** The claims that fail, as the specification words them *)

(** "Emit overall progress as round(100 * (index+1) / totalCandidates)
    after every processed candidate (including skips)". *)
Definition progress_after_every_candidate (w : World) (url save_folder : string) : Prop :=
  forall images, page_get w url = PageImages images ->
  forall idx, idx < length images ->
  In (spec_progress idx (length images)) (progress_values (run w url save_folder)).

(** "creating the sub-folder lazily on first need": a folder is created
    only in a run that reaches a write. *)
Definition folder_created_lazily (t : list Event) : Prop :=
  existsb is_makedirs t = true -> existsb is_write t = true.

(** "the sequence of progress values emitted in one run is non-decreasing
    and ends at exactly 100". *)
Definition progress_ends_at_100 (t : list Event) : Prop :=
  Sorted Z.le (progress_values t) /\ last (progress_values t) = Some 100%Z.

(** "if cancellation is signaled before candidate k completes, no candidate
    with index > k is processed, and the final status indicates
    cancellation". *)
Definition cancel_stops_after (w : World) (url save_folder : string) (k : nat) : Prop :=
  forall images, page_get w url = PageImages images -> k < length images ->
  makedirs w (path_join save_folder logos_dirname) = None ->
  (forall j, k < j -> is_running w j = false) ->
  (forall e j, In e (run w url save_folder) -> candidate_of e = Some j -> j <= k)
  /\ last (run w url save_folder) = Some (EvStatus "Download canceled.").


(** "URL is an inline-encoded data URI" *)
Definition is_data_uri (u : string) : bool := startswith u "data:".

Definition unfetchable (img : Img) : Prop :=
  resolve_url img = None \/
  exists u, resolve_url img = Some u /\
            (is_data_uri u = true \/ contains "/images/" u = false).

Definition skipped_without_effect : Prop :=
  forall w total_images logos_folder idx img,
    unfetchable img ->
    process w total_images logos_folder idx img = skipped [].

(** ** More ways to read a string and a trace *)

Fixpoint all_chars (f : ascii -> bool) (s : string) : bool :=
  match s with
  | EmptyString => true
  | String c rest => f c && all_chars f rest
  end.

(** The name synthesised on line 64, [f"logo_{idx}.jpg"]. *)
Definition fallback_name (idx : nat) : string := "logo_" +:+ str_of_nat idx +:+ ".jpg".

(** [requests.get(full_size_url)] was reached. *)
Definition is_fetch (e : Event) : bool :=
  match e with EvImageGet _ _ => true | _ => false end.

Definition fetch_count (t : list Event) : nat := length (List.filter is_fetch t).
Definition write_count (t : list Event) : nat := length (List.filter is_write t).

(** The exact quotient [floor(100 * (idx + 1) / total)]. *)
Definition exact_percent (idx total_images : nat) : Z :=
  (100 * (Z.of_nat idx + 1) / Z.of_nat total_images)%Z.

(** A world whose network is down. *)
Definition unreachable : World :=
  {| page_get := fun _ => PageRequestException "Max retries exceeded with url: /wiki/Euro_Truck_Simulator_2_Companies";
     makedirs := fun _ => None;
     image_get := fun _ _ => None;
     file_write := fun _ _ _ => true;
     is_running := fun _ => true |}.

(** A page that shows the same logo twice. *)
Definition twice_logo1 : World := plain_world [logo1_img; logo1_img] 6000 (fun _ => true).

(** ** The window: [FullSizeLogoDownloader]

    The slots run one at a time on the GUI thread; each is a function on
    the state of the widgets they touch.  What a slot reads from Qt and
    cannot know from that state (the folder the dialog returns, whether the
    worker thread is still running, the value an animated bar has at that
    moment) is an argument of the slot. *)

Module FullSizeLogoDownloader.

(** The colours of the style sheets set on [status_label]. *)
Inductive Color :=
| Dark     (* #2c3e50 *)
| Orange   (* #f39c12 *)
| Red      (* #e74c3c *)
| Green.   (* #2ecc71 *)

(** A [LogoDownloaderWorker] object: the three attributes [__init__] sets. *)
Record Worker := {
  worker_url : string;
  worker_save_folder : string;
  worker_is_running : bool
}.

(** [LogoDownloaderWorker.__init__] *)
Definition new_worker (url save_folder : string) : Worker :=
  {| worker_url := url; worker_save_folder := save_folder; worker_is_running := true |}.

(** [LogoDownloaderWorker.stop] *)
Definition stop (k : Worker) : Worker :=
  {| worker_url := worker_url k;
     worker_save_folder := worker_save_folder k;
     worker_is_running := false |}.

(** [QPropertyAnimation(self.progress_bar, b"value")] with its two ends. *)
Record Animation := { start_value : Z; end_value : Z }.

Record Window := {
  save_folder : string;
  worker : option Worker;
  url : string;
  (** [setEnabled] of the two buttons *)
  download_btn : bool;
  cancel_btn : bool;
  (** [setText] and the colour of [setStyleSheet] of the label *)
  status_label : string;
  status_color : Color;
  (** the last [setValue] of the bar *)
  progress_bar : Z;
  animation : option Animation;
  (** how many times [QMessageBox.warning] was shown *)
  warnings : nat
}.

(** [__init__] and [init_ui] *)
Definition init_ui : Window :=
  {| save_folder := EmptyString;
     worker := None;
     url := "https://truck-simulator.fandom.com/wiki/Euro_Truck_Simulator_2_Companies";
     download_btn := true;
     cancel_btn := false;
     status_label := "Status: Waiting...";
     status_color := Dark;
     progress_bar := 0;
     animation := None;
     warnings := 0 |}.

(** [select_folder]; [folder] is what [getExistingDirectory] returns, the
    empty string when the dialog is dismissed. *)
Definition select_folder (folder : string) (win : Window) : Window :=
  if is_empty folder then win
  else {| save_folder := folder;
          worker := worker win;
          url := url win;
          download_btn := download_btn win;
          cancel_btn := cancel_btn win;
          status_label := "Selected save folder.";
          status_color := Dark;
          progress_bar := progress_bar win;
          animation := animation win;
          warnings := warnings win |}.

(** [start_download] *)
Definition start_download (win : Window) : Window :=
  if is_empty (save_folder win)
  then {| save_folder := save_folder win;
          worker := worker win;
          url := url win;
          download_btn := download_btn win;
          cancel_btn := cancel_btn win;
          status_label := status_label win;
          status_color := status_color win;
          progress_bar := progress_bar win;
          animation := animation win;
          warnings := S (warnings win) |}
  else {| save_folder := save_folder win;
          worker := Some (new_worker (url win) (save_folder win));
          url := url win;
          download_btn := false;
          cancel_btn := true;
          status_label := "Status: Downloading...";
          status_color := Orange;
          progress_bar := progress_bar win;
          animation := animation win;
          warnings := warnings win |}.

(** [cancel_download]; [thread_running] is [self.worker.isRunning()]. *)
Definition cancel_download (thread_running : bool) (win : Window) : Window :=
  match worker win with
  | Some k =>
      if thread_running
      then {| save_folder := save_folder win;
              worker := Some (stop k);
              url := url win;
              download_btn := true;
              cancel_btn := false;
              status_label := "Status: Download canceled.";
              status_color := Red;
              progress_bar := 0;
              animation := animation win;
              warnings := warnings win |}
      else win
  | None => win
  end.

(** [animate_progress]; [bar_now] is [self.progress_bar.value()]. *)
Definition animate_progress (bar_now value : Z) (win : Window) : Window :=
  {| save_folder := save_folder win;
     worker := worker win;
     url := url win;
     download_btn := download_btn win;
     cancel_btn := cancel_btn win;
     status_label := status_label win;
     status_color := status_color win;
     progress_bar := progress_bar win;
     animation := Some {| start_value := bar_now; end_value := value |};
     warnings := warnings win |}.

(** [c.lower()] on the code points below 256. *)
Definition lower_char (c : ascii) : ascii :=
  if between 65 90 c || (between 192 222 c && negb (Nat.eqb (code c) 215))
  then ascii_of_nat (code c + 32)
  else c.

(** [s.lower()] *)
Fixpoint lower (s : string) : string :=
  match s with
  | EmptyString => EmptyString
  | String c rest => String (lower_char c) (lower rest)
  end.

(** The colour [update_status] chooses for a message. *)
Definition message_color (message : string) : Color :=
  if contains "Downloaded" message then Green
  else if contains "canceled" (lower message) then Red
  else Dark.

(** [update_status] *)
Definition update_status (message : string) (win : Window) : Window :=
  {| save_folder := save_folder win;
     worker := worker win;
     url := url win;
     download_btn := true;
     cancel_btn := false;
     status_label := "Status: " +:+ message;
     status_color := message_color message;
     progress_bar := progress_bar win;
     animation := animation win;
     warnings := warnings win |}.

(** A slot call with what it reads from Qt. *)
Inductive Slot :=
| SelectFolder (folder : string)
| StartDownload
| CancelDownload (thread_running : bool)
| AnimateProgress (bar_now value : Z)
| UpdateStatus (message : string).

Definition call (win : Window) (s : Slot) : Window :=
  match s with
  | SelectFolder folder => select_folder folder win
  | StartDownload => start_download win
  | CancelDownload thread_running => cancel_download thread_running win
  | AnimateProgress bar_now value => animate_progress bar_now value win
  | UpdateStatus message => update_status message win
  end.

Definition calls (win : Window) (slots : list Slot) : Window := fold_left call slots win.

(** The two [connect] calls of [start_download]: a [progress] signal calls
    [animate_progress], a [status_update] signal calls [update_status];
    [bar k] is the value of the bar when the [k]-th event arrives. *)
Fixpoint signals (bar : nat -> Z) (k : nat) (t : list Event) : list Slot :=
  match t with
  | [] => []
  | EvProgress p :: rest => AnimateProgress (bar k) p :: signals bar (S k) rest
  | EvStatus m :: rest => UpdateStatus m :: signals bar (S k) rest
  | _ :: rest => signals bar (S k) rest
  end.

(** A download from the click on the button to the last signal of the
    worker: [start_download], then the run of the worker it created, in the
    world [w], with its signals delivered in order. *)
Definition download (w : World) (bar : nat -> Z) (win : Window) : Window :=
  let started := start_download win in
  match worker started with
  | Some k =>
      if is_empty (save_folder win) then started
      else calls started (signals bar 0 (run w (worker_url k) (worker_save_folder k)))
  | None => started
  end.

(** What holds of every window that a sequence of slot calls can produce. *)
Definition reachable (win : Window) : Prop :=
  download_btn win = negb (cancel_btn win)
  /\ url win = url init_ui
  /\ (cancel_btn win = true ->
      exists k, worker win = Some k /\ worker_is_running k = true)
  /\ (forall k, worker win = Some k ->
                is_empty (worker_save_folder k) = false /\ worker_url k = url init_ui).

(** The message of an [UpdateStatus] call. *)
Definition delivered_status (s : Slot) : option string :=
  match s with UpdateStatus m => Some m | _ => None end.

Definition is_start (s : Slot) : bool :=
  match s with StartDownload => true | _ => false end.

End FullSizeLogoDownloader.

(** * Properties *)

(** ** Rounding is monotone *)

Module Binary64Facts.
Import Binary64.
Local Open Scope Q_scope.

(** *** Integer rounding *)

Ltac qcmp H :=
  first [apply <- Qeq_alt in H | apply <- Qlt_alt in H | apply <- Qgt_alt in H].


Lemma rne_cases (x : Q) : rne x = Qfloor x \/ rne x = (Qfloor x + 1)%Z.
Proof.
  unfold rne. destruct (Qcompare _ _); [destruct (Z.even _)| |]; auto.
Qed.

Lemma rne_ge (x : Q) (k : Z) : inject_Z k <= x -> (k <= rne x)%Z.
Proof.
  intros H. apply Qfloor_resp_le in H. rewrite Qfloor_Z in H.
  destruct (rne_cases x); lia.
Qed.

Lemma rne_le (x : Q) (k : Z) : x <= inject_Z k -> (rne x <= k)%Z.
Proof.
  intros H. pose proof (Qfloor_resp_le _ _ H) as Hf. rewrite Qfloor_Z in Hf.
  destruct (Z.eq_dec (Qfloor x) k) as [E|E].
  - unfold rne. rewrite E.
    assert (Hlt : x - inject_Z k < 1 # 2) by lra.
    rewrite Qlt_alt in Hlt. rewrite Hlt. lia.
  - destruct (rne_cases x); lia.
Qed.

Lemma rne_mono (x y : Q) : x <= y -> (rne x <= rne y)%Z.
Proof.
  intros H. pose proof (Qfloor_resp_le _ _ H) as Hf.
  destruct (Z.eq_dec (Qfloor x) (Qfloor y)) as [E|E].
  - unfold rne. rewrite E.
    assert (Hd : x - inject_Z (Qfloor y) <= y - inject_Z (Qfloor y)) by lra.
    destruct (Qcompare (x - inject_Z (Qfloor y)) (1 # 2)) eqn:Cx;
      destruct (Qcompare (y - inject_Z (Qfloor y)) (1 # 2)) eqn:Cy;
      try (destruct (Z.even (Qfloor y))); try lia;
      qcmp Cx; qcmp Cy; lra.
  - destruct (rne_cases x), (rne_cases y); lia.
Qed.

(** *** Powers of two *)

Lemma pow2_pos (e : Z) : 0 < 2 ^ e.
Proof. apply Qpower_0_lt. reflexivity. Qed.

Lemma pow2_mono (a b : Z) : (a <= b)%Z -> 2 ^ a <= 2 ^ b.
Proof. intros H. apply Qpower_le_compat_l; [exact H | discriminate]. Qed.

Lemma pow2_add (a b : Z) : 2 ^ (a + b) == 2 ^ a * 2 ^ b.
Proof. apply Qpower_plus. discriminate. Qed.

Lemma pow2_succ (a : Z) : 2 ^ (a + 1) == 2 * 2 ^ a.
Proof. rewrite pow2_add. change (2 ^ 1) with 2. ring. Qed.

Lemma pow2_inject (a : Z) : (0 <= a)%Z -> inject_Z (2 ^ a) == 2 ^ a.
Proof. intros H. rewrite Zpower_Qpower by exact H. reflexivity. Qed.

(** Bounds of [Z.log2], transported to the rationals. *)
Lemma log2_bounds_Q (n : Z) :
  (0 < n)%Z -> 2 ^ Z.log2 n <= inject_Z n /\ inject_Z n < 2 * 2 ^ Z.log2 n.
Proof.
  intros Hn. destruct (Z.log2_spec n Hn) as [Hlo Hhi].
  pose proof (Z.log2_nonneg n) as Hnn.
  rewrite <- pow2_succ, <- !pow2_inject by lia.
  rewrite <- Zle_Qle, <- Zlt_Qlt. unfold Z.succ in Hhi. auto.
Qed.

Lemma ilog2_spec (x : Q) :
  0 < x -> 2 ^ ilog2 x <= x /\ x < 2 ^ (ilog2 x + 1).
Proof.
  intros Hx. unfold ilog2.
  destruct x as [p q]. cbn [Qnum Qden].
  assert (Hp : (0 < p)%Z).
  { unfold Qlt in Hx. cbn in Hx. lia. }
  destruct (log2_bounds_Q p Hp) as [Ha1 Ha2].
  destruct (log2_bounds_Q (Zpos q) eq_refl) as [Hb1 Hb2].
  set (a := Z.log2 p) in *. set (b := Z.log2 (Zpos q)) in *.
  assert (Hx' : (p # q) * inject_Z (Zpos q) == inject_Z p).
  { rewrite Qmake_Qdiv. field. discriminate. }
  assert (HD : 2 ^ (a - b) * 2 ^ b == 2 ^ a).
  { rewrite <- pow2_add. replace (a - b + b)%Z with a by ring. reflexivity. }
  pose proof (pow2_pos (a - b)) as HDp. pose proof (pow2_pos b) as HBp.
  pose proof (pow2_pos (a - b - 1)) as HDp'.
  assert (HD' : 2 ^ (a - b) == 2 * 2 ^ (a - b - 1)).
  { rewrite <- pow2_succ. replace (a - b - 1 + 1)%Z with (a - b)%Z by ring. reflexivity. }
  destruct (Qle_bool (2 ^ (a - b)) (p # q)) eqn:Hc.
  - apply Qle_bool_iff in Hc. split; [exact Hc|].
    rewrite pow2_succ. apply Qnot_le_lt. intros Hge.
    assert (2 * 2 ^ (a - b) * 2 ^ b <= (p # q) * inject_Z (Zpos q)) by nra.
    nra.
  - assert (Hlt : (p # q) < 2 ^ (a - b)).
    { apply Qnot_le_lt. intros Hle. apply Qle_bool_iff in Hle. congruence. }
    replace (a - b - 1 + 1)%Z with (a - b)%Z by ring. split; [|exact Hlt].
    apply Qnot_lt_le. intros Hlt2.
    assert ((p # q) * inject_Z (Zpos q) < 2 ^ (a - b - 1) * (2 * 2 ^ b)) by nra.
    nra.
Qed.

Lemma ilog2_mono (x y : Q) : 0 < x -> x <= y -> (ilog2 x <= ilog2 y)%Z.
Proof.
  intros Hx Hxy.
  destruct (ilog2_spec x Hx) as [Hx1 _].
  destruct (ilog2_spec y) as [_ Hy2]; [lra|].
  destruct (Z_lt_le_dec (ilog2 y) (ilog2 x)) as [Hlt|]; [exfalso|assumption].
  pose proof (pow2_mono (ilog2 y + 1) (ilog2 x) ltac:(lia)). lra.
Qed.


(** *** Rounding to 53 bits *)

Lemma round_pos_mantissa (x : Q) :
  0 < x ->
  let e := (ilog2 x - (prec - 1))%Z in
  (2 ^ 52 <= rne (x * 2 ^ (- e)) <= 2 ^ 53)%Z.
Proof.
  intros Hx e. destruct (ilog2_spec x Hx) as [H1 H2].
  pose proof (pow2_pos (- e)) as Hp.
  assert (E1 : 2 ^ ilog2 x * 2 ^ (- e) == inject_Z (2 ^ 52)).
  { rewrite <- pow2_add. unfold e, prec.
    replace (ilog2 x + - (ilog2 x - (53 - 1)))%Z with 52%Z by ring. reflexivity. }
  assert (E2 : 2 ^ (ilog2 x + 1) * 2 ^ (- e) == inject_Z (2 ^ 53)).
  { rewrite <- pow2_add. unfold e, prec.
    replace (ilog2 x + 1 + - (ilog2 x - (53 - 1)))%Z with 53%Z by ring. reflexivity. }
  split.
  - apply rne_ge. rewrite <- E1. apply Qmult_le_compat_r; lra.
  - apply rne_le. rewrite <- E2. apply Qmult_le_compat_r; lra.
Qed.

Lemma round_pos_mono (x y : Q) : 0 < x -> x <= y -> round_pos x <= round_pos y.
Proof.
  intros Hx Hxy. assert (Hy : 0 < y) by lra.
  pose proof (ilog2_mono x y Hx Hxy) as Hl.
  pose proof (round_pos_mantissa x Hx) as Mx.
  pose proof (round_pos_mantissa y Hy) as My.
  unfold round_pos. cbv zeta in Mx, My.
  set (ex := (ilog2 x - (prec - 1))%Z) in *.
  set (ey := (ilog2 y - (prec - 1))%Z) in *.
  destruct (Z.eq_dec (ilog2 x) (ilog2 y)) as [E|E].
  - assert (Ee : ey = ex) by (unfold ex, ey; rewrite E; reflexivity).
    rewrite Ee. apply Qmult_le_compat_r; [|apply Qlt_le_weak, pow2_pos].
    rewrite <- Zle_Qle. apply rne_mono.
    apply Qmult_le_compat_r; [exact Hxy|apply Qlt_le_weak, pow2_pos].
  - assert (Hs : (ex + 1 <= ey)%Z) by (unfold ex, ey; lia).
    pose proof (pow2_mono _ _ Hs) as Hpw. rewrite pow2_succ in Hpw.
    pose proof (pow2_pos ex) as Hpx. pose proof (pow2_pos ey) as Hpy.
    destruct Mx as [_ Mx]. destruct My as [My _].
    rewrite Zle_Qle in Mx, My.
    change (inject_Z (2 ^ 53)) with (2 * inject_Z (2 ^ 52)) in Mx.
    assert (0 < inject_Z (2 ^ 52)) by reflexivity.
    apply Qle_trans with (inject_Z (2 ^ 52) * 2 ^ ey).
    + apply Qle_trans with (2 * inject_Z (2 ^ 52) * 2 ^ ex).
      * apply Qmult_le_compat_r; lra.
      * nra.
    + apply Qmult_le_compat_r; lra.
Qed.

Lemma round_pos_pos (x : Q) : 0 < x -> 0 < round_pos x.
Proof.
  intros Hx. destruct (round_pos_mantissa x Hx) as [M _].
  unfold round_pos. apply Qmult_lt_0_compat; [|apply pow2_pos].
  change 0 with (inject_Z 0). rewrite <- Zlt_Qlt. cbv zeta in M. lia.
Qed.

Lemma round_nonneg (x : Q) : 0 <= x -> 0 <= round x.
Proof.
  intros Hx. unfold round. destruct (Qcompare x 0) eqn:C; qcmp C.
  - lra.
  - lra.
  - apply Qlt_le_weak, round_pos_pos, C.
Qed.

(** Rounding is monotone on the non-negative rationals. *)
Lemma round_mono (x y : Q) : 0 <= x -> x <= y -> round x <= round y.
Proof.
  intros Hx Hxy. unfold round at 1.
  destruct (Qcompare x 0) eqn:Cx; qcmp Cx.
  - apply round_nonneg. lra.
  - lra.
  - unfold round. destruct (Qcompare y 0) eqn:Cy; qcmp Cy; try lra.
    apply round_pos_mono; assumption.
Qed.

Lemma trunc_mono (x y : Q) : 0 <= x -> x <= y -> (trunc x <= trunc y)%Z.
Proof.
  intros Hx Hxy. unfold trunc.
  assert (Hy : 0 <= y) by lra.
  apply Qle_bool_iff in Hx, Hy. rewrite Hx, Hy. apply Qfloor_resp_le, Hxy.
Qed.


Lemma round_1 : round 1 == 1.
Proof. vm_compute. reflexivity. Qed.

Lemma round_100 : round 100 == 100.
Proof. vm_compute. reflexivity. Qed.

Lemma ratio_mono (a b n : Z) :
  (0 < n)%Z -> (a <= b)%Z -> inject_Z a / inject_Z n <= inject_Z b / inject_Z n.
Proof.
  intros Hn Hab. unfold Qdiv. apply Qmult_le_compat_r.
  - rewrite <- Zle_Qle. exact Hab.
  - apply Qinv_le_0_compat. change 0 with (inject_Z 0). rewrite <- Zle_Qle. lia.
Qed.

Lemma ratio_nonneg (a n : Z) : (0 < n)%Z -> (0 <= a)%Z -> 0 <= inject_Z a / inject_Z n.
Proof.
  intros Hn Ha. apply Qle_shift_div_l.
  - change 0 with (inject_Z 0). rewrite <- Zlt_Qlt. exact Hn.
  - rewrite Qmult_0_l. change 0 with (inject_Z 0). rewrite <- Zle_Qle. exact Ha.
Qed.

Lemma ratio_le_1 (a n : Z) : (0 < n)%Z -> (a <= n)%Z -> inject_Z a / inject_Z n <= 1.
Proof.
  intros Hn Ha. apply Qle_shift_div_r.
  - change 0 with (inject_Z 0). rewrite <- Zlt_Qlt. exact Hn.
  - rewrite Qmult_1_l. rewrite <- Zle_Qle. exact Ha.
Qed.

End Binary64Facts.

(** ** The progress value *)

Lemma progress_percent_mono (i j total : nat) :
  (0 < total)%nat -> (i <= j)%nat ->
  (progress_percent i total <= progress_percent j total)%Z.
Proof.
  intros Ht Hij. unfold progress_percent, Binary64.mul, Binary64.truediv.
  assert (Hn : (0 < Z.of_nat total)%Z) by lia.
  pose proof (Binary64Facts.ratio_nonneg (Z.of_nat i + 1) _ Hn ltac:(lia)) as H0.
  pose proof (Binary64Facts.ratio_mono (Z.of_nat i + 1) (Z.of_nat j + 1) _ Hn ltac:(lia)) as H1.
  pose proof (Binary64Facts.round_nonneg _ H0) as H2.
  pose proof (Binary64Facts.round_mono _ _ H0 H1) as H3.
  apply Binary64Facts.trunc_mono.
  - apply Binary64Facts.round_nonneg. lra.
  - apply Binary64Facts.round_mono; lra.
Qed.

Lemma progress_percent_range (i total : nat) :
  (i < total)%nat -> (0 <= progress_percent i total <= 100)%Z.
Proof.
  intros Hi. unfold progress_percent, Binary64.mul, Binary64.truediv.
  assert (Hn : (0 < Z.of_nat total)%Z) by lia.
  pose proof (Binary64Facts.ratio_nonneg (Z.of_nat i + 1) _ Hn ltac:(lia)) as H0.
  pose proof (Binary64Facts.ratio_le_1 (Z.of_nat i + 1) _ Hn ltac:(lia)) as H1.
  pose proof (Binary64Facts.round_nonneg _ H0) as H2.
  pose proof (Binary64Facts.round_mono _ _ H0 H1) as H3.
  rewrite Binary64Facts.round_1 in H3.
  set (r := Binary64.round (inject_Z (Z.of_nat i + 1) / inject_Z (Z.of_nat total))) in *.
  assert (H4 : (0 <= r * 100)%Q) by lra.
  assert (H5 : (r * 100 <= 100)%Q) by lra.
  pose proof (Binary64Facts.round_nonneg _ H4) as H6.
  pose proof (Binary64Facts.round_mono _ _ H4 H5) as H7.
  rewrite Binary64Facts.round_100 in H7.
  split.
  - change 0%Z with (Binary64.trunc 0). apply Binary64Facts.trunc_mono; [lra|exact H6].
  - change 100%Z with (Binary64.trunc 100). apply Binary64Facts.trunc_mono; assumption.
Qed.

(** On a page with at most [2 ^ 53] images only the last candidate reaches
    100: the quotient of any other is at most [1 - 2 ^ -53], which is a
    double, and a hundred times it rounds below 100. *)
Lemma progress_percent_below_100 (i total : nat) :
  (i + 1 < total)%nat -> (Z.of_nat total <= 9007199254740992)%Z ->
  (progress_percent i total <= 99)%Z.
Proof.
  intros Hi Hmax. unfold progress_percent, Binary64.mul, Binary64.truediv.
  set (a := (Z.of_nat i + 1)%Z). set (n := Z.of_nat total).
  assert (Hn : (0 < n)%Z) by (unfold n; lia).
  assert (Han : (a <= n - 1)%Z) by (unfold a, n; lia).
  assert (HN : (0 < inject_Z n)%Q).
  { change 0%Q with (inject_Z 0). rewrite <- Zlt_Qlt. exact Hn. }
  pose proof (Binary64Facts.ratio_nonneg a n Hn ltac:(unfold a; lia)) as H0.
  set (c := (9007199254740991 # 9007199254740992)%Q).
  assert (Hr : (inject_Z a / inject_Z n <= c)%Q).
  { apply Qle_trans with (inject_Z (n - 1) / inject_Z n)%Q.
    - apply Binary64Facts.ratio_mono; assumption.
    - apply Qle_shift_div_r; [exact HN|].
      unfold Z.sub. rewrite inject_Z_plus, inject_Z_opp. change (inject_Z 1) with 1%Q.
      assert (inject_Z n <= inject_Z 9007199254740992)%Q by (rewrite <- Zle_Qle; exact Hmax).
      change (inject_Z 9007199254740992) with (9007199254740992 # 1)%Q in H.
      unfold c. lra. }
  assert (Rc : (Binary64.round c == c)%Q) by (vm_compute; reflexivity).
  pose proof (Binary64Facts.round_nonneg _ H0) as H1.
  pose proof (Binary64Facts.round_mono _ _ H0 Hr) as H2.
  rewrite Rc in H2.
  set (r := Binary64.round (inject_Z a / inject_Z n)) in *.
  assert (H3 : (0 <= r * 100)%Q) by lra.
  assert (H4 : (r * 100 <= c * 100)%Q) by lra.
  pose proof (Binary64Facts.round_nonneg _ H3) as H5.
  pose proof (Binary64Facts.round_mono _ _ H3 H4) as H6.
  pose proof (Binary64Facts.trunc_mono _ _ H5 H6) as H7.
  assert (T : Binary64.trunc (Binary64.round (c * 100)) = 99%Z) by (vm_compute; reflexivity).
  rewrite T in H7. exact H7.
Qed.

(** The model computes what IEEE 754 binary64 computes. *)
Example progress_percent_is_IEEE : agrees_with_IEEE_upto 120 = true.
Proof. vm_compute. reflexivity. Qed.

(** Truncation, not rounding; and the quotient is rounded before it is
    multiplied: [int((29 / 100) * 100)] is [28]. *)
Example progress_percent_samples :
  progress_percent 0 3 = 33%Z /\ progress_percent 1 3 = 66%Z /\
  progress_percent 2 3 = 100%Z /\ progress_percent 28 100 = 28%Z.
Proof. vm_compute. auto. Qed.

(** ** One iteration *)

Section Iteration.
Variables (w : World) (total_images : nat) (logos_folder : string).

Local Abbreviation process_at := (process w total_images logos_folder).

Ltac process_cases :=
  unfold process, skipped;
  repeat match goal with
         | |- context [match ?x with _ => _ end] =>
             lazymatch x with
             | context [match _ with _ => _ end] => fail
             | _ => destruct x eqn:?; cbn [step_events step_saved]
             end
         end;
  cbn.

(** Progress is emitted by the iterations that save, and by no other. *)
Lemma process_progress (idx : nat) (img : Img) :
  progress_values (step_events (process_at idx img)) =
  if step_saved (process_at idx img) then [progress_percent idx total_images] else [].
Proof. process_cases; reflexivity. Qed.

Lemma process_statuses (idx : nat) (img : Img) :
  statuses (step_events (process_at idx img)) = [].
Proof. process_cases; reflexivity. Qed.

Lemma process_makedirs (idx : nat) (img : Img) :
  List.filter is_makedirs (step_events (process_at idx img)) = [].
Proof. process_cases; reflexivity. Qed.

Lemma process_saved_count (idx : nat) (img : Img) :
  saved_count (step_events (process_at idx img)) =
  if step_saved (process_at idx img) then 1 else 0.
Proof. process_cases; reflexivity. Qed.

Lemma process_candidate (idx : nat) (img : Img) (e : Event) (j : nat) :
  In e (step_events (process_at idx img)) -> candidate_of e = Some j -> j = idx.
Proof.
  process_cases; intros Hin Hc;
    repeat (destruct Hin as [<- | Hin]; [cbn in Hc; congruence|]);
    destruct Hin.
Qed.

(** The path of a write is computed from the candidate's URL and index. *)
Lemma process_write (idx : nat) (img : Img) (j : nat) (path : string)
    (data : bytes) (ok : bool) :
  In (EvWrite j path data ok) (step_events (process_at idx img)) ->
  j = idx /\
  exists u, resolve_url img = Some u /\
            path = path_join logos_folder (image_name idx (full_size_url u)).
Proof.
  process_cases; intros Hin;
    repeat (destruct Hin as [Heq | Hin]; [try discriminate Heq|]);
    try destruct Hin;
    injection Heq as <- <- <- <-; eauto.
Qed.

End Iteration.

(** ** The loop *)

Lemma climbs_sorted (lo : Z) (l : list Z) : climbs lo l -> Sorted Z.le (lo :: l).
Proof.
  revert lo. induction l as [|x l IH]; intros lo H.
  - repeat constructor.
  - destruct H as [Hx Hl]. constructor; [apply IH, Hl | constructor; exact Hx].
Qed.

Lemma climbs_bounds (lo : Z) (l : list Z) :
  climbs lo l -> Forall (fun p => (lo <= p <= 100)%Z) l /\ (lo <= 100)%Z.
Proof.
  revert lo. induction l as [|x l IH]; intros lo H; cbn in H.
  - split; [constructor | exact H].
  - destruct H as [Hx Hl]. destruct (IH _ Hl) as [Hall Hb]. split; [|lia].
    constructor; [lia|]. eapply Forall_impl; [exact Hall|]. cbn. intros; lia.
Qed.

Lemma progress_values_app (t1 t2 : list Event) :
  progress_values (t1 ++ t2) = progress_values t1 ++ progress_values t2.
Proof. apply omap_app. Qed.

Lemma statuses_app (t1 t2 : list Event) :
  statuses (t1 ++ t2) = statuses t1 ++ statuses t2.
Proof. apply omap_app. Qed.

Lemma saved_count_app (t1 t2 : list Event) :
  saved_count (t1 ++ t2) = saved_count t1 + saved_count t2.
Proof. unfold saved_count. rewrite List.filter_app. apply length_app. Qed.

Lemma makedirs_count_app (t1 t2 : list Event) :
  makedirs_count (t1 ++ t2) = makedirs_count t1 + makedirs_count t2.
Proof. unfold makedirs_count. rewrite List.filter_app. apply length_app. Qed.

Section Loop.
Variables (w : World) (total_images : nat) (logos_folder : string).

Local Abbreviation process_at := (process w total_images logos_folder).
Local Abbreviation loop_at := (loop w total_images logos_folder).
Local Abbreviation body_at := (body_events w total_images logos_folder).
Local Abbreviation saved_at := (saved_indices w total_images logos_folder).

(** Whatever the flag does, the progress values of the loop climb to at
    most 100. *)
Lemma loop_progress_climbs (images : list Img) (idx count : nat) (lo : Z) :
  idx + length images = total_images ->
  (lo <= 100)%Z ->
  (forall j, idx <= j -> j < total_images -> (lo <= progress_percent j total_images)%Z) ->
  climbs lo (progress_values (loop_at idx images count)).
Proof.
  revert idx count lo.
  induction images as [|img rest IH]; intros idx count lo Hlen Hlo Hnext; cbn [loop].
  - cbn. lia.
  - cbn [length] in Hlen. destruct (is_running w idx); [|cbn; exact Hlo].
    rewrite progress_values_app, process_progress.
    destruct (step_saved (process_at idx img)); cbn [app].
    + cbn [climbs]. split; [apply Hnext; lia|].
      apply IH; [lia| |].
      * apply progress_percent_range. lia.
      * intros j Hj Hjt. apply progress_percent_mono; lia.
    + apply IH; [lia|exact Hlo|]. intros j Hj Hjt. apply Hnext; lia.
Qed.

(** An uncancelled loop is its iterations followed by [100] and the summary. *)
Lemma loop_running (images : list Img) (idx count : nat) :
  (forall j, idx <= j -> j < idx + length images -> is_running w j = true) ->
  loop_at idx images count =
  body_at idx images ++
  [EvProgress 100; EvStatus (summary (count + length (saved_at idx images)))].
Proof.
  revert idx count.
  induction images as [|img rest IH]; intros idx count Hrun; cbn [loop body_events saved_indices].
  - cbn. rewrite Nat.add_0_r. reflexivity.
  - cbn [length] in Hrun. rewrite Hrun by lia.
    rewrite IH by (intros; apply Hrun; lia).
    rewrite <- app_assoc. do 2 f_equal.
    destruct (step_saved (process_at idx img)); cbn [app length];
      [rewrite Nat.add_succ_r|]; reflexivity.
Qed.

Lemma body_progress (images : list Img) (idx : nat) :
  progress_values (body_at idx images) =
  map (fun i => progress_percent i total_images) (saved_at idx images).
Proof.
  revert idx. induction images as [|img rest IH]; intros idx; cbn [body_events saved_indices].
  - reflexivity.
  - rewrite progress_values_app, process_progress, IH, map_app.
    destruct (step_saved (process_at idx img)); reflexivity.
Qed.

Lemma body_saved_count (images : list Img) (idx : nat) :
  saved_count (body_at idx images) = length (saved_at idx images).
Proof.
  revert idx. induction images as [|img rest IH]; intros idx; cbn [body_events saved_indices].
  - reflexivity.
  - rewrite saved_count_app, length_app, process_saved_count, IH.
    destruct (step_saved (process_at idx img)); reflexivity.
Qed.

(** The loop never creates a folder. *)
Lemma loop_makedirs (images : list Img) (idx count : nat) :
  List.filter is_makedirs (loop_at idx images count) = [].
Proof.
  revert idx count. induction images as [|img rest IH]; intros idx count; cbn [loop].
  - reflexivity.
  - destruct (is_running w idx); [|reflexivity].
    rewrite List.filter_app, process_makedirs, IH. reflexivity.
Qed.

(** The loop ends with a status message, the only one it sends. *)
Lemma loop_terminal (images : list Img) (idx count : nat) :
  exists msg, last (loop_at idx images count) = Some (EvStatus msg)
              /\ statuses (loop_at idx images count) = [msg].
Proof.
  revert idx count. induction images as [|img rest IH]; intros idx count; cbn [loop].
  - eexists. split; reflexivity.
  - destruct (is_running w idx); [|eexists; split; reflexivity].
    destruct (IH (S idx) (if step_saved (process_at idx img) then S count else count))
      as (msg & Hlast & Hst).
    exists msg. split.
    + rewrite last_app, Hlast. reflexivity.
    + rewrite statuses_app, process_statuses, Hst. reflexivity.
Qed.

(** Once the flag is seen cleared, the loop ends with the cancellation
    message. *)
Lemma loop_canceled (images : list Img) (idx count j : nat) :
  idx <= j -> j < idx + length images -> is_running w j = false ->
  last (loop_at idx images count) = Some (EvStatus "Download canceled.").
Proof.
  revert idx count. induction images as [|img rest IH]; intros idx count Hj Hlen Hstop.
  - cbn in Hlen. lia.
  - cbn [loop]. cbn [length] in Hlen. destruct (is_running w idx) eqn:Hrun; [|reflexivity].
    assert (idx <> j) by congruence.
    rewrite last_app, IH; [reflexivity|lia|lia|exact Hstop].
Qed.

(** No iteration after the one that saw the flag cleared does anything. *)
Lemma loop_candidates (images : list Img) (idx count k : nat) (e : Event) (j : nat) :
  (forall i, k < i -> is_running w i = false) ->
  In e (loop_at idx images count) -> candidate_of e = Some j -> j <= k.
Proof.
  intros Hstop. revert idx count.
  induction images as [|img rest IH]; intros idx count Hin Hc; cbn [loop] in Hin.
  - destruct Hin as [<-|[<-|[]]]; discriminate Hc.
  - destruct (is_running w idx) eqn:Hrun.
    + assert (idx <= k).
      { destruct (le_lt_dec idx k) as [|Hlt]; [assumption|].
        rewrite (Hstop _ Hlt) in Hrun. discriminate. }
      apply in_app_or in Hin. destruct Hin as [Hin|Hin].
      * rewrite (process_candidate _ _ _ _ _ _ _ Hin Hc). assumption.
      * eapply IH; eassumption.
    + destruct Hin as [<-|[]]. discriminate Hc.
Qed.

(** Every write of the loop goes to the path computed from the URL and the
    index of its candidate. *)
Lemma loop_write (images : list Img) (idx count j : nat) (path : string)
    (data : bytes) (ok : bool) :
  In (EvWrite j path data ok) (loop_at idx images count) ->
  idx <= j /\
  exists img u, images !! (j - idx) = Some img /\ resolve_url img = Some u /\
                path = path_join logos_folder (image_name j (full_size_url u)).
Proof.
  revert idx count. induction images as [|img rest IH]; intros idx count Hin; cbn [loop] in Hin.
  - destruct Hin as [Heq|[Heq|[]]]; discriminate Heq.
  - destruct (is_running w idx).
    + apply in_app_or in Hin. destruct Hin as [Hin|Hin].
      * apply process_write in Hin. destruct Hin as (-> & u & Hu & ->).
        split; [lia|]. exists img, u. rewrite Nat.sub_diag. auto.
      * apply IH in Hin. destruct Hin as (Hle & img' & u & Hl & Hu & ->).
        split; [lia|]. exists img', u. split; [|auto].
        replace (j - idx) with (S (j - S idx)) by lia. exact Hl.
    + destruct Hin as [Heq|[]]. discriminate Heq.
Qed.

(** A loop stopped at the check of iteration [idx + c] is the iterations
    before it and the cancellation message. *)
Lemma loop_stopped (c : nat) (images : list Img) (idx count : nat) :
  c < length images ->
  (forall j, idx <= j -> j < idx + c -> is_running w j = true) ->
  is_running w (idx + c) = false ->
  loop_at idx images count =
  body_at idx (take c images) ++ [EvStatus "Download canceled."].
Proof.
  revert images idx count. induction c as [|c IH]; intros images idx count Hc Hrun Hstop.
  - destruct images as [|img rest]; [cbn in Hc; lia|].
    cbn [loop take body_events app]. rewrite Nat.add_0_r in Hstop. rewrite Hstop. reflexivity.
  - destruct images as [|img rest]; [cbn in Hc; lia|].
    cbn [loop take body_events]. cbn [length] in Hc.
    rewrite Hrun by lia. rewrite <- app_assoc. f_equal.
    apply IH; [lia| |].
    + intros j Hj Hj'. apply Hrun; lia.
    + replace (S idx + c) with (idx + S c) by lia. exact Hstop.
Qed.

End Loop.

(** ** The file system *)




(** An event changes the file at [p] only if it is a write to [p]. *)
Lemma fs_step_untouched (fs : FS) (e : Event) (fs' : FS) (p : string) :
  writes_to p e = false -> fs_step fs e fs' -> files fs' !! p = files fs !! p.
Proof.
  destruct e as [u|q ok|q|m|i u|i q d [|]]; cbn [writes_to fs_step]; intros Hw Hs;
    try (subst fs'; reflexivity).
  - destruct Hs as (-> & _). reflexivity.
  - destruct Hs as (_ & ->). apply String.eqb_neq in Hw. apply lookup_insert_ne, Hw.
  - destruct Hs as (_ & [->|(partial & ->)]); [reflexivity|].
    apply String.eqb_neq in Hw. apply lookup_insert_ne, Hw.
Qed.


Lemma fs_step_size (fs : FS) (e : Event) (fs' : FS) :
  fs_step fs e fs' ->
  size (files fs') <= size (files fs) + (if is_write e then 1 else 0).
Proof.
  assert (Hins : forall (m : gmap string bytes) p d, size (<[p := d]> m) <= size m + 1).
  { intros m p d. destruct (m !! p) eqn:Hl.
    - rewrite map_size_insert_Some by eauto. lia.
    - rewrite map_size_insert_None by exact Hl. lia. }
  destruct e as [u|q ok|q|m|i u|i q d [|]]; cbn [fs_step is_write]; intros Hs;
    try (subst fs'; lia).
  - destruct Hs as (-> & _). lia.
  - destruct Hs as (_ & ->). apply Hins.
  - destruct Hs as (_ & [->|(partial & ->)]); [lia|apply Hins].
Qed.

Lemma fs_step_dirs (fs : FS) (e : Event) (fs' : FS) :
  is_makedirs e = false -> fs_step fs e fs' -> dirs fs' = dirs fs.
Proof.
  destruct e as [u|q ok|q|m|i u|i q d [|]]; cbn [is_makedirs fs_step]; intros Hm Hs;
    try discriminate Hm; try (subst fs'; reflexivity).
  - apply Hs.
  - apply Hs.
Qed.

Lemma fs_run_untouched (t : list Event) (fs fs' : FS) (p : string) :
  existsb (writes_to p) t = false -> fs_run t fs fs' -> files fs' !! p = files fs !! p.
Proof.
  revert fs. induction t as [|e t IH]; intros fs Hno Hrun; cbn [fs_run existsb] in *.
  - subst fs'. reflexivity.
  - apply orb_false_elim in Hno. destruct Hno as [He Hno].
    destruct Hrun as (mid & Hs & Hrun).
    rewrite (IH _ Hno Hrun). eapply fs_step_untouched; eassumption.
Qed.




Lemma fs_run_size (t : list Event) (fs fs' : FS) :
  fs_run t fs fs' -> size (files fs') <= size (files fs) + write_count t.
Proof.
  revert fs. induction t as [|e t IH]; intros fs Hrun; cbn [fs_run] in Hrun.
  - subst fs'. lia.
  - destruct Hrun as (mid & Hs & Hrun). specialize (IH _ Hrun).
    pose proof (fs_step_size _ _ _ Hs) as H1.
    unfold write_count in *. cbn [List.filter]. destruct (is_write e); cbn [length]; lia.
Qed.

Lemma fs_run_dirs (t : list Event) (fs fs' : FS) :
  List.filter is_makedirs t = [] -> fs_run t fs fs' -> dirs fs' = dirs fs.
Proof.
  revert fs. induction t as [|e t IH]; intros fs Hno Hrun; cbn [fs_run List.filter] in *.
  - subst fs'. reflexivity.
  - destruct (is_makedirs e) eqn:He; [discriminate Hno|].
    destruct Hrun as (mid & Hs & Hrun).
    rewrite (IH _ Hno Hrun). eapply fs_step_dirs; eassumption.
Qed.

Lemma fs_run_files (t : list Event) (fs fs' : FS) :
  List.filter is_write t = [] -> fs_run t fs fs' -> files fs' = files fs.
Proof.
  intros Hno Hrun. apply map_eq. intros p. eapply fs_run_untouched; [|exact Hrun].
  destruct (existsb (writes_to p) t) eqn:He; [|reflexivity].
  apply existsb_exists in He. destruct He as (e & Hin & He).
  assert (Hf : In e (List.filter is_write t)).
  { apply filter_In. split; [exact Hin|]. destruct e; try discriminate He. reflexivity. }
  rewrite Hno in Hf. destruct Hf.
Qed.


(** When every write goes through, the bytes at a path are those of the
    last write to it, or what was there when no write went to it. *)
Lemma fs_run_all_saved (t : list Event) (fs fs' : FS) (p : string) :
  all_saved t = true -> fs_run t fs fs' ->
  files fs' !! p =
  match last_to p (attempts t) with Some d => Some d | None => files fs !! p end.
Proof.
  revert fs. induction t as [|e t IH]; intros fs Hall Hrun; cbn [fs_run all_saved forallb] in *.
  - subst fs'. reflexivity.
  - apply andb_prop in Hall. destruct Hall as [He Hall].
    destruct Hrun as (mid & Hs & Hrun). rewrite (IH _ Hall Hrun).
    destruct e as [u|q ok|q|m|i u|i q d [|]];
      try (cbn [fs_step] in Hs;
           change (attempts (?e :: t)) with (attempts t);
           first [subst mid; reflexivity
                 |destruct Hs as (-> & _); reflexivity]).
    + change (attempts (EvWrite i q d true :: t)) with ((i, q, d) :: attempts t).
      cbn [last_to]. destruct (last_to p (attempts t)); [reflexivity|].
      cbn [fs_step] in Hs. destruct Hs as (_ & ->).
      destruct (String.eqb_spec q p) as [->|Hne].
      * apply lookup_insert_eq.
      * apply lookup_insert_ne, Hne.
    + discriminate He.
Qed.




(** ** A whole run *)

Lemma run_no_images (w : World) (url save_folder : string) :
  page_get w url = PageImages [] ->
  run w url save_folder = [EvPageGet url; EvStatus "No images found on the page."].
Proof. intros H. unfold run, run_try. rewrite H. reflexivity. Qed.

Lemma run_started (w : World) (url save_folder : string) (images : list Img) :
  page_get w url = PageImages images -> images <> [] ->
  makedirs w (path_join save_folder logos_dirname) = None ->
  run w url save_folder =
  EvPageGet url :: EvMakedirs (path_join save_folder logos_dirname) true ::
  EvProgress 0 ::
  loop w (length images) (path_join save_folder logos_dirname) 0 images 0.
Proof.
  intros Hp Hne Hm. unfold run, run_try. rewrite Hp.
  destruct images as [|img rest]; [congruence|].
  cbn [length Nat.eqb]. rewrite Hm. cbn [handler]. rewrite app_nil_r. reflexivity.
Qed.

Lemma completes_inv (w : World) (url save_folder : string) :
  completes w url save_folder = true ->
  exists images,
    page_get w url = PageImages images /\ images <> [] /\
    makedirs w (path_join save_folder logos_dirname) = None /\
    forall j, j < length images -> is_running w j = true.
Proof.
  unfold completes. destruct (page_get w url) as [images| |]; try discriminate.
  intros H. apply andb_prop in H. destruct H as [H Hrun].
  apply andb_prop in H. destruct H as [Hne Hm].
  exists images. repeat split.
  - intros ->. discriminate Hne.
  - destruct (makedirs w _); [discriminate|reflexivity].
  - intros j Hj. rewrite forallb_forall in Hrun. apply Hrun, in_seq. lia.
Qed.

(** The five ways a run can go. *)
Lemma run_cases (w : World) (url save_folder : string) :
  (exists e, page_get w url = PageRequestException e /\
             run w url save_folder = [EvPageGet url; EvStatus ("Network Error: " +:+ e)])
  \/ (exists e, page_get w url = PageException e /\
                run w url save_folder = [EvPageGet url; EvStatus ("Error: " +:+ e)])
  \/ (page_get w url = PageImages [] /\
      run w url save_folder = [EvPageGet url; EvStatus "No images found on the page."])
  \/ (exists images e,
         page_get w url = PageImages images /\ images <> [] /\
         makedirs w (path_join save_folder logos_dirname) = Some e /\
         run w url save_folder =
           [EvPageGet url; EvMakedirs (path_join save_folder logos_dirname) false;
            EvStatus ("Error: " +:+ e)])
  \/ (exists images,
         page_get w url = PageImages images /\ images <> [] /\
         makedirs w (path_join save_folder logos_dirname) = None /\
         run w url save_folder =
           EvPageGet url :: EvMakedirs (path_join save_folder logos_dirname) true ::
           EvProgress 0 ::
           loop w (length images) (path_join save_folder logos_dirname) 0 images 0).
Proof.
  unfold run, run_try. destruct (page_get w url) as [[|img rest]|e|e] eqn:Hp.
  - right; right; left. auto.
  - cbn [length Nat.eqb].
    destruct (makedirs w (path_join save_folder logos_dirname)) as [e|] eqn:Hm.
    + right; right; right; left. exists (img :: rest), e.
      repeat split; try reflexivity; discriminate.
    + right; right; right; right. exists (img :: rest).
      cbn [handler]. rewrite app_nil_r.
      repeat split; try reflexivity; discriminate.
  - left. eauto.
  - right; left. eauto.
Qed.

(** The progress values of any run start at 0, never decrease and never
    pass 100. *)
Lemma run_progress (w : World) (url save_folder : string) :
  progress_values (run w url save_folder) = [] \/
  exists l, progress_values (run w url save_folder) = 0%Z :: l /\ climbs 0 l.
Proof.
  unfold run, run_try.
  destruct (page_get w url) as [images|e|e]; [|left; reflexivity..].
  destruct (Nat.eqb (length images) 0) eqn:Hlen; [left; reflexivity|].
  destruct (makedirs w _) as [e|]; [left; reflexivity|].
  right. cbn [handler]. rewrite app_nil_r. eexists. split; [reflexivity|].
  apply Nat.eqb_neq in Hlen.
  apply loop_progress_climbs; [reflexivity|lia|].
  intros j _ Hj. apply progress_percent_range, Hj.
Qed.

Lemma makedirs_absent (t pre post : list Event) (p : string) (ok : bool) :
  List.filter is_makedirs t = [] -> t <> pre ++ EvMakedirs p ok :: post.
Proof.
  intros Hnone ->. rewrite List.filter_app in Hnone. cbn in Hnone.
  apply app_eq_nil in Hnone. destruct Hnone as [_ Hnone]. discriminate Hnone.
Qed.

Lemma makedirs_second (x : Event) (p0 p : string) (ok0 ok : bool)
    (rest pre post : list Event) :
  is_makedirs x = false -> List.filter is_makedirs rest = [] ->
  x :: EvMakedirs p0 ok0 :: rest = pre ++ EvMakedirs p ok :: post ->
  pre = [x] /\ p = p0 /\ ok = ok0.
Proof.
  intros Hx Hrest Heq. destruct pre as [|a [|b pre]]; cbn in Heq.
  - injection Heq as -> _. discriminate Hx.
  - injection Heq as -> -> -> _. auto.
  - injection Heq as _ _ Heq. exfalso. eapply makedirs_absent; eassumption.
Qed.

Lemma saved_indices_bound (w : World) (total_images : nat) (logos_folder : string)
    (images : list Img) (idx j : nat) :
  In j (saved_indices w total_images logos_folder idx images) ->
  idx <= j < idx + length images.
Proof.
  revert idx. induction images as [|img rest IH]; intros idx; cbn [saved_indices length].
  - intros [].
  - rewrite in_app_iff. intros [H|H].
    + destruct (step_saved _); [|destruct H]. destruct H as [<-|[]]. lia.
    + apply IH in H. lia.
Qed.

(** The progress values of a run stopped at the check of candidate [c]. *)
Lemma canceled_run_progress (w : World) (url save_folder : string)
    (images : list Img) (c : nat) :
  page_get w url = PageImages images ->
  makedirs w (path_join save_folder logos_dirname) = None ->
  c < length images ->
  (forall j, j < c -> is_running w j = true) ->
  is_running w c = false ->
  progress_values (run w url save_folder) =
  0%Z :: map (fun idx => progress_percent idx (length images))
           (saved_indices w (length images) (path_join save_folder logos_dirname) 0
              (take c images)).
Proof.
  intros Hp Hm Hc Hrun Hstop.
  assert (Hne : images <> []) by (intros ->; cbn in Hc; lia).
  rewrite (run_started _ _ _ _ Hp Hne Hm).
  rewrite (loop_stopped _ _ _ c) by (try assumption; intros j _ Hj; apply Hrun, Hj).
  change (progress_values (?a :: ?b :: EvProgress 0 :: ?l))
    with (0%Z :: progress_values l).
  rewrite progress_values_app, body_progress. cbn [progress_values omap progress_of].
  rewrite app_nil_r. reflexivity.
Qed.



(** The progress values of a run that is not cut short. *)
Lemma completed_run_progress (w : World) (url save_folder : string) (images : list Img) :
  page_get w url = PageImages images ->
  completes w url save_folder = true ->
  progress_values (run w url save_folder) =
  0%Z :: map (fun idx => progress_percent idx (length images))
             (saved_indices w (length images)
                (path_join save_folder logos_dirname) 0 images)
      ++ [100%Z].
Proof.
  intros Hp Hc.
  destruct (completes_inv _ _ _ Hc) as (images' & Hp' & Hne & Hm & Hrun).
  rewrite Hp in Hp'. injection Hp' as <-.
  rewrite (run_started _ _ _ _ Hp Hne Hm).
  rewrite loop_running by (intros; apply Hrun; lia).
  change (progress_values (?a :: ?b :: EvProgress 0 :: ?l))
    with (0%Z :: progress_values l).
  rewrite progress_values_app, body_progress. reflexivity.
Qed.

(** The summary of a run that is not cut short counts its successful
    writes. *)
Lemma completed_run_status (w : World) (url save_folder : string) :
  completes w url save_folder = true ->
  statuses (run w url save_folder) = [summary (saved_count (run w url save_folder))].
Proof.
  intros Hc.
  destruct (completes_inv _ _ _ Hc) as (images & Hp & Hne & Hm & Hrun).
  rewrite (run_started _ _ _ _ Hp Hne Hm).
  rewrite loop_running by (intros; apply Hrun; lia).
  change (statuses (?a :: ?b :: EvProgress 0 :: ?l)) with (statuses l).
  change (saved_count (?a :: ?b :: EvProgress 0 :: ?l)) with (saved_count l).
  rewrite statuses_app, saved_count_app, body_saved_count.
  assert (Hb : forall idx imgs,
             statuses (body_events w (length images)
                         (path_join save_folder logos_dirname) idx imgs) = []).
  { intros idx imgs. revert idx.
    induction imgs as [|img rest IH]; intros idx; cbn [body_events]; [reflexivity|].
    rewrite statuses_app, process_statuses, IH. reflexivity. }
  rewrite Hb. cbn. rewrite Nat.add_0_r. reflexivity.
Qed.

(** ** What a run asks of the disk *)








(** ** Requests that never return *)





(** ** The scenario of the specification, step by step *)

Example scenario_file_name :
  image_name 1 (full_size_url logo1_url) = "logo1.png".
Proof. vm_compute. reflexivity. Qed.

Example fallback_file_name :
  image_name 7 "https://static.wikia.nocookie.net/truck-simulator/images/" = "logo_7.jpg"
  /\ image_name 12 "https://static.wikia.nocookie.net/images/latest" = "logo_12.jpg"
  /\ image_name 3 "https://static.wikia.nocookie.net/images/Caf%C3%A9 (2).PNG " = "CafC3A9 2.PNG".
Proof. vm_compute. auto. Qed.

Example scenario_trace :
  run scenario wiki_url home =
  [EvPageGet wiki_url;
   EvMakedirs "/home/user/Pictures/Downloaded_Company_Logos" true;
   EvProgress 0;
   EvImageGet 1 "https://static.wikia.nocookie.net/truck-simulator/images/logo1.png";
   EvWrite 1 "/home/user/Pictures/Downloaded_Company_Logos/logo1.png" (payload 6000) true;
   EvProgress 66;
   EvProgress 100;
   EvStatus "Downloaded 1 logos to 'Downloaded_Company_Logos'."].
Proof. vm_compute. reflexivity. Qed.


(** The scenario takes the disk from [disk_before] to [disk_after]. *)
Example scenario_on_disk : fs_run (run scenario wiki_url home) disk_before disk_after.
Proof.
  rewrite scenario_trace. cbn [fs_run fs_step].
  exists disk_before. split; [reflexivity|].
  exists {| dirs := dirs disk_after; files := ∅ |}. split.
  { cbn [dirs files disk_before disk_after]. split; [reflexivity|split; [|split]].
    - intros q Hq. apply elem_of_union. left. exact Hq.
    - intros _. apply elem_of_union. right. apply elem_of_singleton. reflexivity.
    - intros q Hq. apply elem_of_union in Hq. destruct Hq as [Hq|Hq]; [left; exact Hq|].
      right. apply elem_of_singleton in Hq. subst q. split; [reflexivity|discriminate]. }
  eexists. split; [reflexivity|]. eexists. split; [reflexivity|].
  exists disk_after. split.
  { cbn [dirs files disk_after]. split; [reflexivity|]. symmetry. apply insert_empty. }
  eexists. split; [reflexivity|]. eexists. split; [reflexivity|].
  eexists. split; reflexivity.
Qed.


(** ** The claims *)

(** C1, as amended.  Progress is emitted after the candidates that are
    saved and after no other, and its value is the truncated
    double-precision product [int(((idx + 1) / total) * 100)], not the
    rounded quotient.  In a run that is not cut short the values are 0, then
    one value per saved candidate, then 100; in the three-candidate scenario
    they are 0, 66 and 100. *)
Theorem progress_after_saved_candidates :
  (forall w url save_folder images,
      page_get w url = PageImages images ->
      completes w url save_folder = true ->
      progress_values (run w url save_folder) =
      0%Z :: map (fun idx => progress_percent idx (length images))
                 (saved_indices w (length images)
                    (path_join save_folder logos_dirname) 0 images)
          ++ [100%Z])
  /\ (forall w total_images logos_folder idx img,
         progress_values (step_events (process w total_images logos_folder idx img)) =
         if step_saved (process w total_images logos_folder idx img)
         then [progress_percent idx total_images] else [])
  /\ progress_values (run scenario wiki_url home) = [0; 66; 100]%Z.
Proof.
  split; [|split].
  - apply completed_run_progress.
  - intros. apply process_progress.
  - vm_compute. reflexivity.
Qed.

Lemma progress_after_saved_candidates_scenario :
  progress_values (run scenario wiki_url home) =
  0%Z :: map (fun idx => progress_percent idx 3)
             (saved_indices scenario 3 (path_join home logos_dirname) 0
                [inline_img; logo1_img; bare_img])
      ++ [100%Z].
Proof.
  apply (proj1 progress_after_saved_candidates scenario wiki_url home
           [inline_img; logo1_img; bare_img]); vm_compute; reflexivity.
Defined.

(** C1, as the specification words it, fails on the scenario it names:
    neither 33 nor 67 is ever sent. *)
Lemma progress_not_after_every_candidate :
  ~ progress_after_every_candidate scenario wiki_url home.
Proof.
  intros H. specialize (H _ eq_refl 0 ltac:(cbn; lia)).
  vm_compute in H. destruct H as [H|[H|[H|[]]]]; discriminate H.
Qed.

(** C2, as amended.  [os.makedirs] is called at most once in a run, and
    exactly when the page has at least one [img] element; it is called
    eagerly, right after the page is fetched and before any image is fetched
    or written, for [save_folder/Downloaded_Company_Logos].  The run creates
    that folder exactly when the call is made and does not raise; when it
    raises, the run ends with "Error: ..." and no candidate is processed. *)
Theorem folder_created_once_before_the_loop (w : World) (url save_folder : string) :
  makedirs_count (run w url save_folder) <= 1
  /\ (makedirs_count (run w url save_folder) = 1 <->
      exists images, page_get w url = PageImages images /\ images <> [])
  /\ (forall pre p ok post,
         run w url save_folder = pre ++ EvMakedirs p ok :: post ->
         pre = [EvPageGet url] /\ p = path_join save_folder logos_dirname
         /\ (ok = true <-> makedirs w (path_join save_folder logos_dirname) = None))
  /\ (created_count (run w url save_folder) = 1 <->
      (exists images, page_get w url = PageImages images /\ images <> [])
      /\ makedirs w (path_join save_folder logos_dirname) = None)
  /\ (forall fs fs',
         fs_run (run w url save_folder) fs fs' ->
         path_join save_folder logos_dirname ∉ dirs fs ->
         (path_join save_folder logos_dirname ∈ dirs fs' <->
          (exists images, page_get w url = PageImages images /\ images <> [])
          /\ makedirs w (path_join save_folder logos_dirname) = None))
  /\ (forall images e,
         page_get w url = PageImages images -> images <> [] ->
         makedirs w (path_join save_folder logos_dirname) = Some e ->
         run w url save_folder =
         [EvPageGet url; EvMakedirs (path_join save_folder logos_dirname) false;
          EvStatus ("Error: " +:+ e)]).
Proof.
  assert (Hnone : forall msg : string,
             (forall images, page_get w url = PageImages images -> images = []) ->
             run w url save_folder = [EvPageGet url; EvStatus msg] ->
             makedirs_count (run w url save_folder) <= 1
             /\ (makedirs_count (run w url save_folder) = 1 <->
                 exists images, page_get w url = PageImages images /\ images <> [])
             /\ (forall pre p ok post,
                    run w url save_folder = pre ++ EvMakedirs p ok :: post ->
                    pre = [EvPageGet url] /\ p = path_join save_folder logos_dirname
                    /\ (ok = true <-> makedirs w (path_join save_folder logos_dirname) = None))
             /\ (created_count (run w url save_folder) = 1 <->
                 (exists images, page_get w url = PageImages images /\ images <> [])
                 /\ makedirs w (path_join save_folder logos_dirname) = None)
             /\ (forall fs fs',
                    fs_run (run w url save_folder) fs fs' ->
                    path_join save_folder logos_dirname ∉ dirs fs ->
                    (path_join save_folder logos_dirname ∈ dirs fs' <->
                     (exists images, page_get w url = PageImages images /\ images <> [])
                     /\ makedirs w (path_join save_folder logos_dirname) = None))
             /\ (forall images e,
                    page_get w url = PageImages images -> images <> [] ->
                    makedirs w (path_join save_folder logos_dirname) = Some e ->
                    run w url save_folder =
                    [EvPageGet url; EvMakedirs (path_join save_folder logos_dirname) false;
                     EvStatus ("Error: " +:+ e)])).
  { intros msg Hempty ->. unfold makedirs_count, created_count.
    cbn [List.filter is_makedirs is_created length].
    split; [lia|]. split; [|split; [|split; [|split]]].
    - split; [discriminate|]. intros (images & Hi & Hne). exfalso. apply Hne, Hempty, Hi.
    - intros pre p ok post H. exfalso. eapply makedirs_absent; [|exact H]. reflexivity.
    - split; [discriminate|]. intros ((images & Hi & Hne) & _). exfalso. apply Hne, Hempty, Hi.
    - intros fs fs' Hrun Hout. apply fs_run_dirs in Hrun; [|reflexivity]. rewrite Hrun.
      split; [intros H; contradiction|].
      intros ((images & Hi & Hne) & _). exfalso. apply Hne, Hempty, Hi.
    - intros images e Hi Hne. exfalso. apply Hne, Hempty, Hi. }
  destruct (run_cases w url save_folder)
    as [(e & Hp & Hr)|[(e & Hp & Hr)|[(Hp & Hr)|[(images & e & Hp & Hne & Hm & Hr)
        |(images & Hp & Hne & Hm & Hr)]]]].
  - apply (Hnone _ ltac:(intros images Hi; congruence) Hr).
  - apply (Hnone _ ltac:(intros images Hi; congruence) Hr).
  - apply (Hnone _ ltac:(intros images Hi; congruence) Hr).
  - rewrite Hr. unfold makedirs_count, created_count.
    cbn [List.filter is_makedirs is_created length].
    split; [lia|]. split; [|split; [|split; [|split]]].
    + split; [|reflexivity]. intros _. exists images. auto.
    + intros pre p ok post H.
      apply makedirs_second in H; [|reflexivity..]. destruct H as (-> & -> & ->).
      split; [reflexivity|]. split; [reflexivity|]. rewrite Hm. split; discriminate.
    + split; [discriminate|]. intros (_ & H). rewrite Hm in H. discriminate H.
    + intros fs fs' Hrun Hout. cbn [fs_run fs_step] in Hrun.
      destruct Hrun as (m1 & -> & m2 & (_ & _ & _ & Hnew) & m3 & -> & ->).
      split.
      * intros H. destruct (Hnew _ H) as [H'|[_ H']]; [contradiction|].
        exfalso. apply H'; reflexivity.
      * intros (_ & H). rewrite Hm in H. discriminate H.
    + intros images' e' _ _ He. rewrite Hm in He. injection He as <-. reflexivity.
  - rewrite Hr. unfold makedirs_count, created_count.
    cbn [List.filter is_makedirs is_created length].
    assert (Hc : List.filter is_created
                   (loop w (length images) (path_join save_folder logos_dirname) 0 images 0)
                 = []).
    { pose proof (loop_makedirs w (length images) (path_join save_folder logos_dirname)
                    images 0 0) as Hl.
      revert Hl. generalize (loop w (length images) (path_join save_folder logos_dirname)
                               0 images 0).
      intros t. induction t as [|x t IH]; [reflexivity|]. cbn [List.filter].
      destruct x as [u|q [|]|q|m|i u|i q d ok]; cbn [is_makedirs is_created];
        try discriminate; exact IH. }
    rewrite loop_makedirs, Hc. cbn [length].
    split; [lia|]. split; [|split; [|split; [|split]]].
    + split; [|reflexivity]. intros _. exists images. auto.
    + intros pre p ok post H.
      apply makedirs_second in H; [|reflexivity|].
      * destruct H as (-> & -> & ->).
        split; [reflexivity|split; [reflexivity|split; auto]].
      * cbn [List.filter is_makedirs]. apply loop_makedirs.
    + split; [|reflexivity]. intros _. split; [exists images; auto|exact Hm].
    + intros fs fs' Hrun Hout. cbn [fs_run fs_step] in Hrun.
      destruct Hrun as (m1 & -> & m2 & (_ & _ & Hok & _) & m3 & -> & Hrun).
      apply fs_run_dirs in Hrun; [|apply loop_makedirs]. rewrite Hrun.
      split; [|intros _; apply Hok; reflexivity].
      intros _. split; [exists images; auto|exact Hm].
    + intros images' e' _ _ He. rewrite Hm in He. discriminate He.
Qed.

Lemma folder_created_once_in_scenario :
  makedirs_count (run scenario wiki_url home) = 1
  /\ path_join home logos_dirname ∈ dirs disk_after.
Proof.
  pose proof (folder_created_once_before_the_loop scenario wiki_url home)
    as (_ & H1 & _ & _ & H2 & _).
  assert (Hpage : exists images,
             page_get scenario wiki_url = PageImages images /\ images <> []).
  { exists [inline_img; logo1_img; bare_img]. split; [reflexivity|discriminate]. }
  split.
  - apply H1, Hpage.
  - apply (H2 disk_before disk_after scenario_on_disk).
    + cbn [dirs disk_before]. intros H. apply elem_of_singleton in H. discriminate H.
    + split; [exact Hpage|reflexivity].
Defined.

(** C2, as the specification words it, fails: on a page whose only image is
    inline the folder is created although no write is ever reached. *)
Lemma folder_created_without_need :
  ~ folder_created_lazily (run only_inline wiki_url home).
Proof.
  intros H. specialize (H eq_refl). vm_compute in H. discriminate H.
Qed.

(** C3, as amended.  In every run the progress values never decrease and
    stay between 0 and 100; in a run that is not cut short (the page is
    fetched and has an image, the folder is created, no check sees the flag
    cleared) the last one is exactly 100.  A run that ends on an error or on
    an empty page sends no progress value.  A run that ends on cancellation
    sends 0 and then one value per candidate saved before the check that
    stopped it, and not the final 100 of line 79; on a page with at most
    [2 ^ 53] images none of these values is 100. *)
Theorem progress_never_decreases (w : World) (url save_folder : string) :
  Sorted Z.le (progress_values (run w url save_folder))
  /\ Forall (fun p => (0 <= p <= 100)%Z) (progress_values (run w url save_folder))
  /\ (completes w url save_folder = true ->
      last (progress_values (run w url save_folder)) = Some 100%Z)
  /\ ((forall images, page_get w url = PageImages images ->
         images = [] \/ makedirs w (path_join save_folder logos_dirname) <> None) ->
      progress_values (run w url save_folder) = [])
  /\ (forall images c,
         page_get w url = PageImages images ->
         makedirs w (path_join save_folder logos_dirname) = None ->
         c < length images ->
         (forall j, j < c -> is_running w j = true) ->
         is_running w c = false ->
         progress_values (run w url save_folder) =
         0%Z :: map (fun idx => progress_percent idx (length images))
                  (saved_indices w (length images) (path_join save_folder logos_dirname) 0
                     (take c images))
         /\ ((Z.of_nat (length images) <= 9007199254740992)%Z ->
             ~ In 100%Z (progress_values (run w url save_folder)))).
Proof.
  split; [|split; [|split; [|split]]].
  - destruct (run_progress w url save_folder) as [->|(l & -> & Hl)].
    + constructor.
    + apply climbs_sorted, Hl.
  - destruct (run_progress w url save_folder) as [->|(l & -> & Hl)].
    + constructor.
    + constructor; [lia|]. apply climbs_bounds, Hl.
  - intros Hc.
    destruct (completes_inv _ _ _ Hc) as (images & Hp & _).
    rewrite (completed_run_progress _ _ _ _ Hp Hc).
    rewrite app_comm_cons. apply last_snoc.
  - intros Hno.
    destruct (run_cases w url save_folder)
      as [(e & _ & ->)|[(e & _ & ->)|[(_ & ->)|[(images & e & _ & _ & _ & ->)
          |(images & Hp & Hne & Hm & _)]]]]; try reflexivity.
    destruct (Hno _ Hp) as [H|H]; contradiction.
  - intros images c Hp Hm Hc Hrun Hstop.
    rewrite (canceled_run_progress _ _ _ _ _ Hp Hm Hc Hrun Hstop).
    split; [reflexivity|].
    intros Hmax [H|H]; [discriminate H|].
    apply in_map_iff in H. destruct H as (j & Hj & Hin).
    apply saved_indices_bound in Hin. rewrite length_take in Hin.
    pose proof (progress_percent_below_100 j (length images) ltac:(lia) Hmax). lia.
Qed.

Lemma progress_ends_at_100_in_scenario :
  last (progress_values (run scenario wiki_url home)) = Some 100%Z
  /\ progress_values (run stopped_during_first wiki_url home) =
     0%Z :: map (fun idx => progress_percent idx 3)
              (saved_indices stopped_during_first 3 (path_join home logos_dirname) 0
                 [logo1_img])
  /\ ~ In 100%Z (progress_values (run stopped_during_first wiki_url home)).
Proof.
  split.
  - apply (proj1 (proj2 (proj2 (progress_never_decreases scenario wiki_url home)))).
    vm_compute. reflexivity.
  - pose proof (proj2 (proj2 (proj2 (proj2
                  (progress_never_decreases stopped_during_first wiki_url home))))
                  [logo1_img; logo1_img; bare_img] 1) as H.
    destruct H as [H1 H2].
    + reflexivity.
    + reflexivity.
    + cbn. lia.
    + intros j Hj. destruct j; [reflexivity|lia].
    + reflexivity.
    + split; [exact H1|]. apply H2. vm_compute. discriminate.
Defined.

(** C3, as the specification words it, fails: a run stopped at the first
    check of the flag sends 0 and nothing more. *)
Lemma canceled_run_ends_below_100 :
  ~ progress_ends_at_100 (run stopped_at_start wiki_url home).
Proof.
  intros [_ H]. vm_compute in H. discriminate H.
Qed.

(** C4, as amended.  When the flag is cleared before candidate [k]
    completes, no candidate after [k] is fetched, written or counted.  If
    [k] is not the last candidate, the run ends with the cancellation
    message; if the flag is cleared only while the last candidate is being
    processed, no check is left to see it and the run ends with the
    save-count summary. *)
Theorem cancellation_stops_the_loop (w : World) (url save_folder : string)
    (images : list Img) (k : nat) :
  page_get w url = PageImages images -> k < length images ->
  makedirs w (path_join save_folder logos_dirname) = None ->
  (forall j, k < j -> is_running w j = false) ->
  (forall e j, In e (run w url save_folder) -> candidate_of e = Some j -> j <= k)
  /\ (S k < length images ->
      last (run w url save_folder) = Some (EvStatus "Download canceled."))
  /\ (S k = length images -> (forall j, j <= k -> is_running w j = true) ->
      exists count, last (run w url save_folder) = Some (EvStatus (summary count))).
Proof.
  intros Hp Hk Hm Hstop.
  assert (Hne : images <> []) by (intros ->; cbn in Hk; lia).
  rewrite (run_started _ _ _ _ Hp Hne Hm).
  change (?a :: ?b :: ?c :: loop ?w ?n ?f 0 images 0)
    with ([a; b; c] ++ loop w n f 0 images 0).
  split; [|split].
  - intros e j Hin Hc. apply in_app_or in Hin. destruct Hin as [Hin|Hin].
    + destruct Hin as [<-|[<-|[<-|[]]]]; discriminate Hc.
    + eapply loop_candidates; eassumption.
  - intros Hlast. rewrite last_app.
    rewrite (loop_canceled _ _ _ _ _ _ (S k)); [reflexivity|lia|lia|apply Hstop; lia].
  - intros Hlast Hrun. rewrite loop_running by (intros; apply Hrun; lia).
    eexists. rewrite app_assoc. rewrite last_app. reflexivity.
Qed.

Lemma cancellation_during_first_of_three :
  (forall e j, In e (run stopped_during_first wiki_url home) ->
               candidate_of e = Some j -> j <= 0)
  /\ last (run stopped_during_first wiki_url home) = Some (EvStatus "Download canceled.").
Proof.
  destruct (cancellation_stops_the_loop stopped_during_first wiki_url home
              [logo1_img; logo1_img; bare_img] 0) as (H1 & H2 & _).
  - reflexivity.
  - cbn. lia.
  - reflexivity.
  - intros j Hj. destruct j; [lia|reflexivity].
  - split; [exact H1|]. apply H2. cbn. lia.
Defined.

(** C4, as the specification words it, fails: when [stop()] arrives while
    the last candidate is being fetched, the run ends with the save-count
    summary. *)
Lemma cancellation_during_last_is_not_reported :
  ~ cancel_stops_after stopped_during_last wiki_url home 0.
Proof.
  intros H. destruct (H [logo1_img]) as [_ Hl].
  - reflexivity.
  - cbn. lia.
  - reflexivity.
  - intros j Hj. destruct j; [lia|reflexivity].
  - vm_compute in Hl. discriminate Hl.
Qed.

(** C5.  A fetched payload is rejected exactly when it is shorter than 5000
    bytes: 4999 bytes are skipped without a write, 5000 bytes reach the
    write and are counted when the write succeeds. *)
Theorem payload_threshold (w : World) (total_images : nat) (logos_folder : string)
    (idx : nat) (img : Img) (u : string) (data : bytes) :
  resolve_url img = Some u -> is_empty u = false ->
  startswith u "data:image" = false -> contains "/images/" u = true ->
  image_get w idx (full_size_url u) = Some data ->
  (process w total_images logos_folder idx img = skipped [EvImageGet idx (full_size_url u)]
   <-> (Z.of_nat (length data) < 5000)%Z)
  /\ ((5000 <= Z.of_nat (length data))%Z ->
      In (EvWrite idx (path_join logos_folder (image_name idx (full_size_url u))) data
            (step_saved (process w total_images logos_folder idx img)))
         (step_events (process w total_images logos_folder idx img))
      /\ step_saved (process w total_images logos_folder idx img) =
         file_write w idx (path_join logos_folder (image_name idx (full_size_url u))) data)
  /\ (Z.of_nat (length data) = 4999%Z ->
      existsb is_write (step_events (process w total_images logos_folder idx img)) = false
      /\ step_saved (process w total_images logos_folder idx img) = false)
  /\ (Z.of_nat (length data) = 5000%Z ->
      existsb is_write (step_events (process w total_images logos_folder idx img)) = true).
Proof.
  intros Hu He Hd Hi Hg. unfold process. rewrite Hu, He, Hd, Hi, Hg. cbn [negb].
  destruct (Z.ltb_spec (Z.of_nat (length data)) 5000) as [Hlt|Hge].
  - split; [tauto|]. split; [lia|]. split; [|lia]. intros _. auto.
  - destruct (file_write w idx _ data) eqn:Hw; unfold skipped; cbn.
    + split; [split; [discriminate|lia]|]. split; [auto|]. split; [lia|auto].
    + split; [split; [discriminate|lia]|]. split; [auto|]. split; [lia|auto].
Qed.

Lemma payload_threshold_at_the_boundary :
  (existsb is_write
     (step_events (process (plain_world [logo1_img] 4999 (fun _ => true)) 1 home 0 logo1_img))
   = false)
  /\ (existsb is_write
        (step_events (process (plain_world [logo1_img] 5000 (fun _ => true)) 1 home 0 logo1_img))
      = true).
Proof.
  split.
  - apply (payload_threshold (plain_world [logo1_img] 4999 (fun _ => true)) 1 home 0
             logo1_img logo1_url (payload 4999)); vm_compute; reflexivity.
  - apply (payload_threshold (plain_world [logo1_img] 5000 (fun _ => true)) 1 home 0
             logo1_img logo1_url (payload 5000)); vm_compute; reflexivity.
Defined.

(** C6, as amended.  A candidate whose resolved URL is absent, begins with
    [data:image] or lacks the segment [/images/] is skipped without effect:
    no fetch, no write, no increment of the count (and no progress). *)
Theorem filtered_candidates_are_skipped (w : World) (total_images : nat)
    (logos_folder : string) (idx : nat) (img : Img) :
  filtered_out img ->
  step_events (process w total_images logos_folder idx img) = []
  /\ step_saved (process w total_images logos_folder idx img) = false.
Proof.
  unfold process. intros [Hn|(u & Hu & [Hd|Hi])].
  - rewrite Hn. auto.
  - rewrite Hu, Hd. destruct (is_empty u); auto.
  - rewrite Hu, Hi. destruct (is_empty u), (startswith u "data:image"); auto.
Qed.

Lemma inline_image_is_skipped :
  step_events (process scenario 3 home 0 inline_img) = []
  /\ step_saved (process scenario 3 home 0 inline_img) = false.
Proof.
  apply filtered_candidates_are_skipped.
  right. exists placeholder. split; [reflexivity|]. left. reflexivity.
Defined.

(** C6, as the specification words it, fails: an inline reference of
    another media type that contains [/images/] passes the three tests and
    is handed to [requests.get]. *)
Lemma inline_text_is_fetched : ~ skipped_without_effect.
Proof.
  intros H.
  assert (Hu : unfetchable inline_text_img).
  { right. eexists. split; [reflexivity|]. left. reflexivity. }
  specialize (H offline_images 1 home 0 inline_text_img Hu).
  vm_compute in H. discriminate H.
Qed.

(** C7.  When the page has no [img] element the run reports
    "No images found on the page." and ends there: nothing is saved and the
    sub-folder is not created. *)
Theorem no_images_found (w : World) (url save_folder : string) :
  page_get w url = PageImages [] ->
  run w url save_folder = [EvPageGet url; EvStatus "No images found on the page."]
  /\ statuses (run w url save_folder) = ["No images found on the page."]
  /\ saved_count (run w url save_folder) = 0
  /\ makedirs_count (run w url save_folder) = 0.
Proof.
  intros Hp. rewrite (run_no_images _ _ _ Hp). repeat split.
Qed.

Lemma no_images_found_on_empty_page :
  run no_images wiki_url home = [EvPageGet wiki_url; EvStatus "No images found on the page."]
  /\ statuses (run no_images wiki_url home) = ["No images found on the page."]
  /\ saved_count (run no_images wiki_url home) = 0
  /\ makedirs_count (run no_images wiki_url home) = 0.
Proof.
  apply (no_images_found no_images wiki_url home). reflexivity.
Defined.






(** C10.  The choice between [data-src] and [src] is made on the value, not
    on the presence, of [data-src]: a [data-src] that is present and empty
    does not hide [src], a [data-src] that is not empty is taken whatever
    [src] holds, and a candidate whose [data-src] is empty is fetched from
    its [src]. *)
Theorem empty_data_src_falls_back (img : Img) :
  (data_src img = Some EmptyString -> resolve_url img = src img)
  /\ (forall s, data_src img = Some s -> s <> EmptyString -> resolve_url img = Some s)
  /\ (data_src img = None -> resolve_url img = src img)
  /\ (forall w total_images logos_folder idx u,
         data_src img = Some EmptyString -> src img = Some u ->
         is_empty u = false -> startswith u "data:image" = false ->
         contains "/images/" u = true ->
         exists rest, step_events (process w total_images logos_folder idx img) =
                      EvImageGet idx (full_size_url u) :: rest).
Proof.
  split; [|split; [|split]].
  - intros H. unfold resolve_url. rewrite H. reflexivity.
  - intros s H Hs. unfold resolve_url. rewrite H.
    destruct s; [contradiction|reflexivity].
  - intros H. unfold resolve_url. rewrite H. reflexivity.
  - intros w total_images logos_folder idx u Hd Hs He Hi Hc.
    unfold process, resolve_url. rewrite Hd. cbn [is_empty]. rewrite Hs, He, Hi, Hc.
    cbn [negb]. destruct (image_get w idx (full_size_url u)) as [d|].
    + destruct (Z.of_nat (length d) <? 5000)%Z; [eexists; reflexivity|].
      destruct (file_write w idx _ d); eexists; reflexivity.
    + eexists. reflexivity.
Qed.

Lemma empty_data_src_falls_back_to_logo1 :
  resolve_url empty_lazy_img = Some logo1_url
  /\ resolve_url logo1_img = Some logo1_url
  /\ exists rest, step_events (process scenario 1 home 0 empty_lazy_img) =
                  EvImageGet 0 (full_size_url logo1_url) :: rest.
Proof.
  split; [|split].
  - apply (proj1 (empty_data_src_falls_back empty_lazy_img)). reflexivity.
  - apply (proj1 (proj2 (empty_data_src_falls_back logo1_img)) logo1_url).
    + reflexivity.
    + discriminate.
  - apply (proj2 (proj2 (proj2 (empty_data_src_falls_back empty_lazy_img)))
             scenario 1 home 0 logo1_url); vm_compute; reflexivity.
Defined.

(** * Further properties of the code *)

(** ** Strings *)

Lemma append_nil (b : string) : EmptyString +:+ b = b.
Proof. reflexivity. Qed.

Lemma append_cons (c : ascii) (a b : string) : String c a +:+ b = String c (a +:+ b).
Proof. reflexivity. Qed.

Lemma prefix_nil_r (s : string) : String.prefix s EmptyString = is_empty s.
Proof. destruct s; reflexivity. Qed.

Lemma prefix_cons (a b : ascii) (s1 s2 : string) :
  String.prefix (String a s1) (String b s2) = Ascii.eqb a b && String.prefix s1 s2.
Proof.
  cbn. destruct (ascii_dec a b) as [->|Hne].
  - rewrite Ascii.eqb_refl. reflexivity.
  - apply Ascii.eqb_neq in Hne. rewrite Hne. reflexivity.
Qed.

Lemma prefix_refl (s : string) : String.prefix s s = true.
Proof. induction s as [|c s IH]; [reflexivity|]. rewrite prefix_cons, Ascii.eqb_refl. exact IH. Qed.

Lemma prefix_trans (a b c : string) :
  String.prefix a b = true -> String.prefix b c = true -> String.prefix a c = true.
Proof.
  revert b c. induction a as [|x a IH]; intros b c Hab Hbc.
  - destruct c; reflexivity.
  - destruct b as [|y b]; [discriminate Hab|].
    destruct c as [|z c]; [discriminate Hbc|].
    rewrite prefix_cons in Hab, Hbc |- *.
    apply andb_prop in Hab, Hbc. destruct Hab as [Hxy Hab], Hbc as [Hyz Hbc].
    apply Ascii.eqb_eq in Hxy, Hyz. subst. rewrite Ascii.eqb_refl. cbn.
    eapply IH; eassumption.
Qed.

Lemma prefix_split (a b : string) :
  String.prefix a b = true -> exists tail, b = a +:+ tail.
Proof.
  revert b. induction a as [|x a IH]; intros b H.
  - exists b. reflexivity.
  - destruct b as [|y b]; [discriminate H|].
    rewrite prefix_cons in H. apply andb_prop in H. destruct H as [Hxy H].
    apply Ascii.eqb_eq in Hxy. subst y.
    destruct (IH _ H) as [tail ->]. exists tail. reflexivity.
Qed.

Lemma prefix_app (a tail : string) : String.prefix a (a +:+ tail) = true.
Proof.
  induction a as [|x a IH]; rewrite ?append_nil, ?append_cons.
  - destruct tail; reflexivity.
  - rewrite prefix_cons, Ascii.eqb_refl. exact IH.
Qed.

Lemma contains_cons (sub : string) (c : ascii) (s : string) :
  contains sub (String c s) = String.prefix sub (String c s) || contains sub s.
Proof. reflexivity. Qed.

Lemma contains_nil (sub : string) : contains sub EmptyString = is_empty sub.
Proof. cbn [contains]. rewrite prefix_nil_r. apply orb_false_r. Qed.

Lemma contains_app_r (sub a b : string) :
  contains sub b = true -> contains sub (a +:+ b) = true.
Proof.
  intros H. induction a as [|x a IH]; rewrite ?append_nil, ?append_cons; [exact H|].
  rewrite contains_cons, IH. apply orb_true_r.
Qed.

(** Membership of one character. *)
Lemma contains_char_cons (c d : ascii) (s : string) :
  contains (String c EmptyString) (String d s) =
  Ascii.eqb c d || contains (String c EmptyString) s.
Proof.
  rewrite contains_cons, prefix_cons. f_equal.
  destruct s; cbn; apply andb_true_r.
Qed.

Lemma all_chars_no_char (f : ascii -> bool) (c : ascii) (s : string) :
  f c = false -> all_chars f s = true -> contains (String c EmptyString) s = false.
Proof.
  intros Hc. induction s as [|d s IH]; intros H.
  - reflexivity.
  - cbn [all_chars] in H. apply andb_prop in H. destruct H as [Hd H].
    rewrite contains_char_cons, (IH H), orb_false_r.
    apply Ascii.eqb_neq. intros ->. congruence.
Qed.

Lemma is_empty_app (a b : string) : is_empty b = false -> is_empty (a +:+ b) = false.
Proof. destruct a; rewrite ?append_nil, ?append_cons; auto. Qed.

Lemma ends_with_slash_cons (c : ascii) (s : string) :
  is_empty s = false -> ends_with_slash (String c s) = ends_with_slash s.
Proof. destruct s; [discriminate|reflexivity]. Qed.

Lemma ends_with_slash_app (a b : string) :
  is_empty b = false -> ends_with_slash (a +:+ b) = ends_with_slash b.
Proof.
  intros Hb. induction a as [|x a IH]; rewrite ?append_nil, ?append_cons; [reflexivity|].
  rewrite ends_with_slash_cons by (apply is_empty_app, Hb). exact IH.
Qed.

Lemma ends_with_slash_split (a : string) :
  ends_with_slash a = true -> exists d, a = d +:+ "/".
Proof.
  induction a as [|x a IH]; [discriminate|].
  destruct a as [|y a].
  - cbn. intros H. apply Ascii.eqb_eq in H. subst. exists EmptyString. reflexivity.
  - rewrite ends_with_slash_cons by reflexivity. intros H.
    destruct (IH H) as [d ->]. exists (String x d). reflexivity.
Qed.

(** *** [split("/revision/")[0]] *)

Lemma split_head_prefix (sep s : string) : String.prefix (split_head sep s) s = true.
Proof.
  induction s as [|c s IH]; cbn [split_head].
  - destruct (String.prefix sep EmptyString); reflexivity.
  - destruct (String.prefix sep (String c s)); [reflexivity|].
    rewrite prefix_cons, Ascii.eqb_refl. exact IH.
Qed.

Lemma split_head_clean (sep s : string) :
  is_empty sep = false -> contains sep (split_head sep s) = false.
Proof.
  intros Hsep. induction s as [|c s IH]; cbn [split_head].
  - destruct (String.prefix sep EmptyString); rewrite contains_nil; exact Hsep.
  - destruct (String.prefix sep (String c s)) eqn:Hp.
    + rewrite contains_nil. exact Hsep.
    + rewrite contains_cons, IH, orb_false_r.
      destruct (String.prefix sep (String c (split_head sep s))) eqn:Hq; [|reflexivity].
      rewrite <- Hp. symmetry. eapply prefix_trans; [exact Hq|].
      rewrite prefix_cons, Ascii.eqb_refl. apply split_head_prefix.
Qed.

Lemma split_head_unmarked (sep s : string) :
  contains sep s = false -> split_head sep s = s.
Proof.
  induction s as [|c s IH]; cbn [split_head]; intros H.
  - destruct (String.prefix sep EmptyString); reflexivity.
  - rewrite contains_cons in H. apply orb_false_elim in H. destruct H as [Hp Hc].
    rewrite Hp, (IH Hc). reflexivity.
Qed.

Lemma split_head_marked (sep s : string) :
  contains sep s = true -> exists tail, s = split_head sep s +:+ sep +:+ tail.
Proof.
  induction s as [|c s IH]; cbn [split_head]; intros H.
  - rewrite contains_nil in H. destruct sep; [|discriminate H].
    exists EmptyString. reflexivity.
  - destruct (String.prefix sep (String c s)) eqn:Hp.
    + apply prefix_split in Hp. destruct Hp as [tail Hp]. exists tail. exact Hp.
    + rewrite contains_cons, Hp in H. cbn [orb] in H.
      destruct (IH H) as [tail Ht]. exists tail. rewrite ?append_nil, ?append_cons. f_equal. exact Ht.
Qed.

(** *** [os.path.basename] and [os.path.join] *)

Lemma basename_plain (b : string) : contains "/" b = false -> basename b = b.
Proof.
  destruct b as [|c b]; [reflexivity|].
  rewrite contains_char_cons. intros H. apply orb_false_elim in H. destruct H as [Hc Hb].
  cbn [basename]. rewrite Hb, Ascii.eqb_sym, Hc. reflexivity.
Qed.

Lemma basename_after_slash (d b : string) :
  contains "/" b = false -> basename (d +:+ String "/" b) = b.
Proof.
  intros Hb. induction d as [|c d IH]; rewrite ?append_nil, ?append_cons; cbn [basename].
  - rewrite Hb, Ascii.eqb_refl. reflexivity.
  - rewrite contains_app_r; [exact IH|].
    rewrite contains_char_cons, Ascii.eqb_refl. reflexivity.
Qed.

Lemma append_assoc (a b c : string) : (a +:+ b) +:+ c = a +:+ (b +:+ c).
Proof.
  induction a as [|x a IH]; rewrite ?append_nil, ?append_cons; [reflexivity|].
  rewrite IH. reflexivity.
Qed.

Lemma no_slash_not_absolute (b : string) : contains "/" b = false -> startswith b "/" = false.
Proof.
  unfold startswith. destruct b as [|c b]; [reflexivity|].
  rewrite contains_cons. intros H. apply orb_false_elim in H. apply H.
Qed.

(** X1.  [full_size_url] cuts the URL at its first [/revision/]: the result
    is the part of the URL before that marker, it holds no marker any more,
    and a URL without a marker is left as it is. *)
Theorem full_size_url_cuts_at_first_marker (img_url : string) :
  contains "/revision/" (full_size_url img_url) = false
  /\ (contains "/revision/" img_url = true ->
      exists tail, img_url = full_size_url img_url +:+ "/revision/" +:+ tail)
  /\ (contains "/revision/" img_url = false -> full_size_url img_url = img_url)
  /\ full_size_url (full_size_url img_url) = full_size_url img_url.
Proof.
  unfold full_size_url. repeat split.
  - apply split_head_clean. reflexivity.
  - apply split_head_marked.
  - apply split_head_unmarked.
  - apply split_head_unmarked, split_head_clean. reflexivity.
Qed.

(** [basename] returns what follows the last slash: the result holds
    no slash, and the path is the result appended to a directory part that
    is empty or ends with a slash. *)
Lemma basename_is_last_segment (p : string) :
  contains "/" (basename p) = false
  /\ exists dir, p = dir +:+ basename p
                 /\ (dir = EmptyString \/ ends_with_slash dir = true).
Proof.
  induction p as [|c p IH].
  - split; [reflexivity|]. exists EmptyString. auto.
  - destruct IH as (Hclean & dir & Hp & Hdir). cbn [basename].
    destruct (contains "/" p) eqn:Hs.
    + split; [exact Hclean|]. exists (String c dir). split.
      * rewrite append_cons. f_equal. exact Hp.
      * right. destruct Hdir as [->|Hd].
        -- rewrite append_nil in Hp. rewrite Hp, Hclean in Hs. discriminate Hs.
        -- rewrite ends_with_slash_cons; [exact Hd|]. destruct dir; [discriminate Hd|reflexivity].
    + destruct (Ascii.eqb c "/") eqn:Hc.
      * apply Ascii.eqb_eq in Hc. subst c. split; [exact Hs|].
        exists "/". split; [reflexivity|]. right. reflexivity.
      * split.
        -- rewrite contains_char_cons, Hs, Ascii.eqb_sym, Hc. reflexivity.
        -- exists EmptyString. auto.
Qed.

(** Joining a folder and a name without a slash and taking the base
    name gives the name back, whatever the folder. *)
Lemma basename_of_path_join (a b : string) :
  contains "/" b = false -> basename (path_join a b) = b.
Proof.
  intros Hb. unfold path_join. rewrite (no_slash_not_absolute _ Hb).
  destruct a as [|c a]; cbn [is_empty orb].
  - rewrite append_nil. apply basename_plain, Hb.
  - destruct (ends_with_slash (String c a)) eqn:He.
    + destruct (ends_with_slash_split _ He) as [d ->].
      rewrite append_assoc. rewrite append_cons, append_nil.
      apply basename_after_slash, Hb.
    + apply basename_after_slash, Hb.
Qed.

Lemma basename_of_path_join_logo1 :
  basename (path_join (path_join home logos_dirname) "logo1.png") = "logo1.png".
Proof. apply basename_of_path_join. reflexivity. Defined.

(** *** The file name *)

Lemma all_chars_filter (f : ascii -> bool) (s : string) :
  all_chars f (filter_chars f s) = true.
Proof.
  induction s as [|c s IH]; cbn [filter_chars]; [reflexivity|].
  destruct (f c) eqn:Hc; [|exact IH]. cbn [all_chars]. rewrite Hc. exact IH.
Qed.

Lemma filter_chars_kept (f : ascii -> bool) (s : string) :
  all_chars f s = true -> filter_chars f s = s.
Proof.
  induction s as [|c s IH]; cbn [all_chars filter_chars]; [reflexivity|].
  intros H. apply andb_prop in H. destruct H as [Hc Hs]. rewrite Hc, (IH Hs). reflexivity.
Qed.

Lemma all_chars_app (f : ascii -> bool) (a b : string) :
  all_chars f (a +:+ b) = all_chars f a && all_chars f b.
Proof.
  induction a as [|c a IH]; rewrite ?append_nil, ?append_cons; cbn [all_chars]; [reflexivity|].
  rewrite IH. apply andb_assoc.
Qed.

Lemma all_chars_rstrip (f : ascii -> bool) (s : string) :
  all_chars f s = true -> all_chars f (rstrip s) = true.
Proof.
  induction s as [|c s IH]; cbn [all_chars rstrip]; [reflexivity|].
  intros H. apply andb_prop in H. destruct H as [Hc Hs].
  destruct (isspace c && is_empty (rstrip s)); [reflexivity|].
  cbn [all_chars]. rewrite Hc. apply IH, Hs.
Qed.

Lemma rstrip_idempotent (s : string) : rstrip (rstrip s) = rstrip s.
Proof.
  induction s as [|c s IH]; cbn [rstrip]; [reflexivity|].
  destruct (isspace c && is_empty (rstrip s)) eqn:H; [reflexivity|].
  cbn [rstrip]. rewrite IH, H. reflexivity.
Qed.

(** [rstrip] removes white space only. *)
Lemma contains_char_rstrip (c : ascii) (s : string) :
  isspace c = false ->
  contains (String c EmptyString) (rstrip s) = contains (String c EmptyString) s.
Proof.
  intros Hc. induction s as [|d s IH]; cbn [rstrip]; [reflexivity|].
  rewrite contains_char_cons.
  destruct (isspace d && is_empty (rstrip s)) eqn:H.
  - apply andb_prop in H. destruct H as [Hd He].
    destruct (rstrip s); [|discriminate He]. rewrite <- IH.
    replace (Ascii.eqb c d) with false; [reflexivity|].
    symmetry. apply Ascii.eqb_neq. intros ->. congruence.
  - rewrite contains_char_cons, IH. reflexivity.
Qed.

Lemma contains_char_filter (f : ascii -> bool) (c : ascii) (s : string) :
  f c = true ->
  contains (String c EmptyString) (filter_chars f s) = contains (String c EmptyString) s.
Proof.
  intros Hc. induction s as [|d s IH]; cbn [filter_chars]; [reflexivity|].
  rewrite contains_char_cons. destruct (f d) eqn:Hd.
  - rewrite contains_char_cons, IH. reflexivity.
  - rewrite IH. replace (Ascii.eqb c d) with false; [reflexivity|].
    symmetry. apply Ascii.eqb_neq. intros ->. congruence.
Qed.

Lemma rstrip_app (a b : string) :
  is_empty (rstrip b) = false -> rstrip (a +:+ b) = a +:+ rstrip b.
Proof.
  intros Hb. induction a as [|c a IH]; rewrite ?append_nil, ?append_cons; [reflexivity|].
  cbn [rstrip]. rewrite IH, is_empty_app by exact Hb. rewrite andb_false_r. reflexivity.
Qed.

(** The digits of [str(n)] are kept by the filter of line 66. *)
Lemma str_of_nat_kept (n : nat) : all_chars keep_char (str_of_nat n) = true.
Proof.
  unfold str_of_nat. induction (Nat.to_uint n) as [|d IH|d IH|d IH|d IH|d IH|d IH|d IH|d IH|d IH|d IH];
    cbn [NilEmpty.string_of_uint all_chars]; [reflexivity|rewrite IH; reflexivity..].
Qed.

Lemma str_of_nat_inj (i j : nat) : str_of_nat i = str_of_nat j -> i = j.
Proof.
  unfold str_of_nat. intros H. apply DecimalNat.Unsigned.to_uint_inj.
  assert (Hu : NilEmpty.uint_of_string (NilEmpty.string_of_uint (Nat.to_uint i)) =
               NilEmpty.uint_of_string (NilEmpty.string_of_uint (Nat.to_uint j)))
    by (rewrite H; reflexivity).
  rewrite !NilEmpty.usu in Hu. injection Hu as Hu. exact Hu.
Qed.

Lemma append_length (a b : string) :
  String.length (a +:+ b) = String.length a + String.length b.
Proof.
  induction a as [|c a IH]; rewrite ?append_nil, ?append_cons; cbn [String.length]; [reflexivity|].
  rewrite IH. reflexivity.
Qed.

Lemma append_inv_tail (a b c : string) : a +:+ c = b +:+ c -> a = b.
Proof.
  revert b. induction a as [|x a IH]; intros [|y b] H; rewrite ?append_nil, ?append_cons in H.
  - reflexivity.
  - apply (f_equal String.length) in H. cbn [String.length] in H.
    rewrite append_length in H. lia.
  - apply (f_equal String.length) in H. cbn [String.length] in H.
    rewrite append_length in H. lia.
  - injection H as -> H. f_equal. apply IH, H.
Qed.

Lemma fallback_name_sanitized (idx : nat) :
  rstrip (filter_chars keep_char (fallback_name idx)) = fallback_name idx.
Proof.
  unfold fallback_name.
  rewrite filter_chars_kept.
  - rewrite rstrip_app.
    + rewrite rstrip_app; reflexivity.
    + rewrite rstrip_app by reflexivity. apply is_empty_app. reflexivity.
  - rewrite !all_chars_app, str_of_nat_kept. reflexivity.
Qed.

Lemma image_name_kept (idx : nat) (url : string) :
  all_chars keep_char (image_name idx url) = true.
Proof. unfold image_name. apply all_chars_rstrip, all_chars_filter. Qed.

Lemma image_name_has_dot (idx : nat) (url : string) :
  contains "." (image_name idx url) = true.
Proof.
  unfold image_name.
  rewrite contains_char_rstrip, contains_char_filter by reflexivity.
  destruct (is_empty (basename url) || negb (contains "." (basename url))) eqn:H.
  - apply (contains_app_r "." "logo_"). apply contains_app_r. reflexivity.
  - apply orb_false_elim in H. destruct H as [_ H].
    apply negb_false_iff in H. exact H.
Qed.

(** X2.  The file name of a candidate is made of letters, digits, spaces,
    periods and underscores only; it therefore holds no slash and no
    backslash.  It always holds a period, so it is never empty, and it has
    no trailing white space. *)
Theorem image_name_is_sanitized (idx : nat) (url : string) :
  all_chars keep_char (image_name idx url) = true
  /\ contains "/" (image_name idx url) = false
  /\ contains "\" (image_name idx url) = false
  /\ contains "." (image_name idx url) = true
  /\ rstrip (image_name idx url) = image_name idx url.
Proof.
  pose proof (image_name_kept idx url) as Hall.
  split; [exact Hall|]. split; [|split; [|split]].
  - eapply all_chars_no_char; [|exact Hall]. reflexivity.
  - eapply all_chars_no_char; [|exact Hall]. reflexivity.
  - apply image_name_has_dot.
  - unfold image_name. apply rstrip_idempotent.
Qed.

(** X3.  Two candidates whose URLs give no usable base name (none, or one
    without a period) get the names [logo_<idx>.jpg] of their indices, and
    these differ when the indices differ. *)
Theorem fallback_names_are_distinct (i j : nat) (url1 url2 : string) :
  contains "." (basename url1) = false ->
  contains "." (basename url2) = false ->
  image_name i url1 = fallback_name i
  /\ image_name j url2 = fallback_name j
  /\ (image_name i url1 = image_name j url2 -> i = j).
Proof.
  intros H1 H2.
  assert (E : forall k url, contains "." (basename url) = false ->
                            image_name k url = fallback_name k).
  { intros k url H. unfold image_name. rewrite H. cbn [negb].
    rewrite orb_true_r. apply fallback_name_sanitized. }
  rewrite (E _ _ H1), (E _ _ H2). repeat split.
  unfold fallback_name. rewrite !append_cons, !append_nil. intros H.
  injection H as H. apply append_inv_tail in H. apply str_of_nat_inj, H.
Qed.

Lemma fallback_names_of_two_bare_urls :
  image_name 7 "https://static.wikia.nocookie.net/truck-simulator/images/" = fallback_name 7
  /\ image_name 12 "https://static.wikia.nocookie.net/images/latest" = fallback_name 12
  /\ (image_name 7 "https://static.wikia.nocookie.net/truck-simulator/images/" =
      image_name 12 "https://static.wikia.nocookie.net/images/latest" -> 7 = 12).
Proof.
  apply fallback_names_are_distinct; vm_compute; reflexivity.
Defined.

(** Where a run writes. *)
Lemma run_write (w : World) (url save_folder : string) (j : nat) (path : string)
    (data : bytes) (ok : bool) :
  In (EvWrite j path data ok) (run w url save_folder) ->
  exists images img u,
    page_get w url = PageImages images /\ images !! j = Some img /\
    resolve_url img = Some u /\
    path = path_join (path_join save_folder logos_dirname)
             (image_name j (full_size_url u)).
Proof.
  unfold run, run_try.
  destruct (page_get w url) as [images|e|e].
  - destruct (Nat.eqb (length images) 0).
    + intros [H|[H|[]]]; discriminate H.
    + destruct (makedirs w _) as [e|]; cbn [handler app].
      * intros [H|[H|[H|[]]]]; discriminate H.
      * rewrite app_nil_r. intros [H|[H|[H|Hin]]]; try discriminate H.
        apply loop_write in Hin. destruct Hin as (_ & img & u & Hl & Hu & ->).
        rewrite Nat.sub_0_r in Hl. exists images, img, u. auto.
  - intros [H|[H|[]]]; discriminate H.
  - intros [H|[H|[]]]; discriminate H.
Qed.

Lemma logos_folder_shape (save_folder : string) :
  is_empty (path_join save_folder logos_dirname) = false
  /\ ends_with_slash (path_join save_folder logos_dirname) = false.
Proof.
  unfold path_join. change (startswith logos_dirname "/") with false. cbv iota.
  destruct (is_empty save_folder || ends_with_slash save_folder).
  - split; [apply is_empty_app; reflexivity|].
    rewrite ends_with_slash_app; reflexivity.
  - split; [apply is_empty_app; reflexivity|].
    rewrite ends_with_slash_app; reflexivity.
Qed.

(** X4.  Every file a run writes lies directly in the sub-folder
    [Downloaded_Company_Logos] of the destination: its path is that folder,
    a slash and a file name without a slash. *)
Theorem writes_stay_in_the_logos_folder (w : World) (url save_folder : string)
    (j : nat) (path : string) (data : bytes) (ok : bool) :
  In (EvWrite j path data ok) (run w url save_folder) ->
  exists name,
    path = path_join save_folder logos_dirname +:+ "/" +:+ name
    /\ contains "/" name = false
    /\ is_empty name = false
    /\ basename path = name.
Proof.
  intros Hin. apply run_write in Hin.
  destruct Hin as (images & img & u & _ & _ & _ & ->).
  pose proof (image_name_has_dot j (full_size_url u)) as Hdot.
  assert (Hslash : contains "/" (image_name j (full_size_url u)) = false).
  { eapply all_chars_no_char; [|apply image_name_kept]. reflexivity. }
  exists (image_name j (full_size_url u)).
  destruct (logos_folder_shape save_folder) as [Hne Hend].
  assert (Hpath : path_join (path_join save_folder logos_dirname)
                    (image_name j (full_size_url u)) =
                  path_join save_folder logos_dirname +:+ "/" +:+
                  image_name j (full_size_url u)).
  { unfold path_join at 1. rewrite (no_slash_not_absolute _ Hslash), Hne, Hend. reflexivity. }
  rewrite Hpath. repeat split.
  - exact Hslash.
  - destruct (image_name j (full_size_url u)); [discriminate Hdot|reflexivity].
  - apply basename_after_slash, Hslash.
Qed.

Lemma scenario_write_stays_in_the_logos_folder :
  exists name,
    "/home/user/Pictures/Downloaded_Company_Logos/logo1.png" =
    path_join home logos_dirname +:+ "/" +:+ name
    /\ contains "/" name = false
    /\ is_empty name = false
    /\ basename "/home/user/Pictures/Downloaded_Company_Logos/logo1.png" = name.
Proof.
  apply (writes_stay_in_the_logos_folder scenario wiki_url home 1 _ (payload 6000) true).
  vm_compute. auto 10.
Defined.

(** ** Fetches and writes *)

Lemma fetch_count_app (t1 t2 : list Event) :
  fetch_count (t1 ++ t2) = fetch_count t1 + fetch_count t2.
Proof. unfold fetch_count. rewrite List.filter_app. apply length_app. Qed.

Lemma write_count_app (t1 t2 : list Event) :
  write_count (t1 ++ t2) = write_count t1 + write_count t2.
Proof. unfold write_count. rewrite List.filter_app. apply length_app. Qed.

Ltac count_events :=
  unfold saved_count, write_count, fetch_count;
  cbn [List.filter is_saved is_write is_fetch length].

Section Effects.
Variables (w : World) (total_images : nat) (logos_folder : string).

Local Abbreviation process_at := (process w total_images logos_folder).
Local Abbreviation loop_at := (loop w total_images logos_folder).
Local Abbreviation body_at := (body_events w total_images logos_folder).

Ltac process_cases :=
  unfold process, skipped;
  repeat match goal with
         | |- context [match ?x with _ => _ end] =>
             lazymatch x with
             | context [match _ with _ => _ end] => fail
             | _ => destruct x eqn:?; cbn [step_events step_saved]
             end
         end;
  cbn.

(** A write comes right after the fetch of its candidate and writes the
    bytes that fetch returned, of which there are at least 5000. *)
Lemma process_write_payload (idx : nat) (img : Img) (j : nat) (path : string)
    (data : bytes) (ok : bool) :
  In (EvWrite j path data ok) (step_events (process_at idx img)) ->
  j = idx /\
  exists fetched rest,
    step_events (process_at idx img) =
      EvImageGet idx fetched :: EvWrite idx path data ok :: rest
    /\ image_get w idx fetched = Some data
    /\ (5000 <= Z.of_nat (length data))%Z
    /\ ok = file_write w idx path data.
Proof.
  process_cases; intros Hin;
    repeat (destruct Hin as [Heq | Hin]; [try discriminate Heq|]);
    try destruct Hin;
    injection Heq as <- <- <- <-;
    (split; [reflexivity|]); do 2 eexists;
    (split; [reflexivity|]); repeat split; try assumption; try congruence;
    match goal with H : (_ <? _)%Z = false |- _ => apply Z.ltb_ge in H; exact H end.
Qed.

(** Only a URL that passed the three tests is fetched, cut at its marker. *)
Lemma process_fetch (idx : nat) (img : Img) (j : nat) (fetched : string) :
  In (EvImageGet j fetched) (step_events (process_at idx img)) ->
  j = idx /\
  exists u, resolve_url img = Some u /\ is_empty u = false /\
            startswith u "data:image" = false /\ contains "/images/" u = true /\
            fetched = full_size_url u.
Proof.
  process_cases; intros Hin;
    repeat (destruct Hin as [Heq | Hin]; [try discriminate Heq|]);
    try destruct Hin;
    injection Heq as <- <-;
    (split; [reflexivity|]); eexists; repeat split; try assumption;
    match goal with H : negb _ = false |- _ => apply negb_false_iff in H; exact H end.
Qed.

Lemma process_counts (idx : nat) (img : Img) :
  saved_count (step_events (process_at idx img)) <=
    write_count (step_events (process_at idx img))
  /\ write_count (step_events (process_at idx img)) <=
       fetch_count (step_events (process_at idx img))
  /\ fetch_count (step_events (process_at idx img)) <= 1.
Proof. process_cases; count_events; lia. Qed.

Lemma loop_counts (images : list Img) (idx count : nat) :
  saved_count (loop_at idx images count) <= write_count (loop_at idx images count)
  /\ write_count (loop_at idx images count) <= fetch_count (loop_at idx images count)
  /\ fetch_count (loop_at idx images count) <= length images.
Proof.
  revert idx count. induction images as [|img rest IH]; intros idx count; cbn [loop].
  - count_events. lia.
  - destruct (is_running w idx); [|count_events; lia].
    rewrite saved_count_app, write_count_app, fetch_count_app.
    pose proof (process_counts idx img).
    pose proof (IH (S idx) (if step_saved (process_at idx img) then S count else count)).
    cbn [length]. lia.
Qed.

Lemma loop_write_payload (images : list Img) (idx count j : nat) (path : string)
    (data : bytes) (ok : bool) :
  In (EvWrite j path data ok) (loop_at idx images count) ->
  exists pre fetched post,
    loop_at idx images count =
      pre ++ EvImageGet j fetched :: EvWrite j path data ok :: post
    /\ image_get w j fetched = Some data
    /\ (5000 <= Z.of_nat (length data))%Z
    /\ ok = file_write w j path data.
Proof.
  revert idx count. induction images as [|img rest IH]; intros idx count Hin; cbn [loop] in *.
  - destruct Hin as [Heq|[Heq|[]]]; discriminate Heq.
  - destruct (is_running w idx).
    + apply in_app_or in Hin. destruct Hin as [Hin|Hin].
      * apply process_write_payload in Hin.
        destruct Hin as (-> & fetched & tail & Hst & Hget & Hlen & Hok).
        exists [], fetched. eexists. rewrite Hst. cbn [app]. repeat split; eauto.
      * apply IH in Hin. destruct Hin as (pre & fetched & post & Hl & Hrest).
        exists (step_events (process_at idx img) ++ pre), fetched, post.
        rewrite Hl, <- app_assoc. auto.
    + destruct Hin as [Heq|[]]. discriminate Heq.
Qed.

Lemma loop_fetch (images : list Img) (idx count j : nat) (fetched : string) :
  In (EvImageGet j fetched) (loop_at idx images count) ->
  idx <= j /\
  exists img u, images !! (j - idx) = Some img /\ resolve_url img = Some u /\
                is_empty u = false /\ startswith u "data:image" = false /\
                contains "/images/" u = true /\ fetched = full_size_url u.
Proof.
  revert idx count. induction images as [|img rest IH]; intros idx count Hin; cbn [loop] in Hin.
  - destruct Hin as [Heq|[Heq|[]]]; discriminate Heq.
  - destruct (is_running w idx).
    + apply in_app_or in Hin. destruct Hin as [Hin|Hin].
      * apply process_fetch in Hin. destruct Hin as (-> & u & Hu).
        split; [lia|]. exists img, u. rewrite Nat.sub_diag. auto.
      * apply IH in Hin. destruct Hin as (Hle & img' & u & Hl & Hu).
        split; [lia|]. exists img', u. split; [|exact Hu].
        replace (j - idx) with (S (j - S idx)) by lia. exact Hl.
    + destruct Hin as [Heq|[]]. discriminate Heq.
Qed.

End Effects.

(** X5.  Every write of a run comes right after the fetch of the same
    candidate and writes exactly the bytes that fetch returned; these are
    at least 5000 bytes, and the write is recorded as successful exactly
    when [open] and [write] raise nothing. *)
Theorem written_bytes_are_the_fetched_ones (w : World) (url save_folder : string)
    (j : nat) (path : string) (data : bytes) (ok : bool) :
  In (EvWrite j path data ok) (run w url save_folder) ->
  exists pre fetched post,
    run w url save_folder =
      pre ++ EvImageGet j fetched :: EvWrite j path data ok :: post
    /\ image_get w j fetched = Some data
    /\ (5000 <= Z.of_nat (length data))%Z
    /\ ok = file_write w j path data.
Proof.
  destruct (run_cases w url save_folder)
    as [(e & _ & ->)|[(e & _ & ->)|[(_ & ->)|[(images & e & _ & _ & _ & ->)
        |(images & _ & _ & _ & ->)]]]]; intros Hin.
  - destruct Hin as [H|[H|[]]]; discriminate H.
  - destruct Hin as [H|[H|[]]]; discriminate H.
  - destruct Hin as [H|[H|[]]]; discriminate H.
  - destruct Hin as [H|[H|[H|[]]]]; discriminate H.
  - destruct Hin as [H|[H|[H|Hin]]]; try discriminate H.
    apply loop_write_payload in Hin.
    destruct Hin as (pre & fetched & post & -> & Hrest).
    eexists (_ :: _ :: _ :: pre), fetched, post. split; [reflexivity|exact Hrest].
Qed.

Lemma scenario_write_follows_its_fetch :
  exists pre fetched post,
    run scenario wiki_url home =
      pre ++ EvImageGet 1 fetched ::
             EvWrite 1 "/home/user/Pictures/Downloaded_Company_Logos/logo1.png"
               (payload 6000) true :: post
    /\ image_get scenario 1 fetched = Some (payload 6000)
    /\ (5000 <= Z.of_nat (length (payload 6000)))%Z
    /\ true = file_write scenario 1
                "/home/user/Pictures/Downloaded_Company_Logos/logo1.png" (payload 6000).
Proof.
  apply (written_bytes_are_the_fetched_ones scenario wiki_url home).
  vm_compute. auto 10.
Defined.

(** X6.  A run fetches only from candidates of the page whose resolved URL
    is not empty, does not begin with [data:image] and holds [/images/];
    what it fetches is that URL cut at its first [/revision/]. *)
Theorem fetched_urls_passed_the_tests (w : World) (url save_folder : string)
    (j : nat) (fetched : string) :
  In (EvImageGet j fetched) (run w url save_folder) ->
  exists images img u,
    page_get w url = PageImages images /\ images !! j = Some img /\
    resolve_url img = Some u /\ is_empty u = false /\
    startswith u "data:image" = false /\ contains "/images/" u = true /\
    fetched = full_size_url u.
Proof.
  destruct (run_cases w url save_folder)
    as [(e & _ & ->)|[(e & _ & ->)|[(_ & ->)|[(images & e & _ & _ & _ & ->)
        |(images & Hp & _ & _ & ->)]]]]; intros Hin.
  - destruct Hin as [H|[H|[]]]; discriminate H.
  - destruct Hin as [H|[H|[]]]; discriminate H.
  - destruct Hin as [H|[H|[]]]; discriminate H.
  - destruct Hin as [H|[H|[H|[]]]]; discriminate H.
  - destruct Hin as [H|[H|[H|Hin]]]; try discriminate H.
    apply loop_fetch in Hin. destruct Hin as (_ & img & u & Hl & Hu).
    rewrite Nat.sub_0_r in Hl. exists images, img, u. auto.
Qed.

Lemma scenario_fetch_passed_the_tests :
  exists images img u,
    page_get scenario wiki_url = PageImages images /\ images !! 1 = Some img /\
    resolve_url img = Some u /\ is_empty u = false /\
    startswith u "data:image" = false /\ contains "/images/" u = true /\
    "https://static.wikia.nocookie.net/truck-simulator/images/logo1.png" = full_size_url u.
Proof.
  apply (fetched_urls_passed_the_tests scenario wiki_url home).
  vm_compute. auto 10.
Defined.

(** X7.  In every run the saved files are at most the attempted writes,
    these are at most the image fetches, and these are at most the [img]
    elements of the page: each candidate is fetched and written at most
    once. *)
Theorem saved_written_fetched_counts (w : World) (url save_folder : string) :
  saved_count (run w url save_folder) <= write_count (run w url save_folder)
  /\ write_count (run w url save_folder) <= fetch_count (run w url save_folder)
  /\ fetch_count (run w url save_folder) <=
     match page_get w url with PageImages images => length images | _ => 0 end.
Proof.
  destruct (run_cases w url save_folder)
    as [(e & -> & ->)|[(e & -> & ->)|[(-> & ->)|[(images & e & -> & _ & _ & ->)
        |(images & -> & _ & _ & ->)]]]].
  - count_events. lia.
  - count_events. lia.
  - count_events. lia.
  - count_events. lia.
  - pose proof (loop_counts w (length images) (path_join save_folder logos_dirname) images 0 0)
      as H.
    unfold saved_count, write_count, fetch_count in *.
    cbn [List.filter is_saved is_write is_fetch]. exact H.
Qed.

Lemma FS_eq (a b : FS) : dirs a = dirs b -> files a = files b -> a = b.
Proof. destruct a, b. cbn. intros -> ->. reflexivity. Qed.

(** X8.  A run that does not reach the loop (the page cannot be fetched or
    parsed, it has no image, or the sub-folder cannot be created) sends no
    progress value, fetches no image, opens no file and leaves every file as
    it was.  It removes no folder; when [os.makedirs] was not reached the
    file system is exactly as it was, and when [os.makedirs] raised, the
    folders it may have left behind are parents of the sub-folder, not the
    sub-folder. *)
Theorem run_without_loop_touches_no_file (w : World) (url save_folder : string) :
  (forall images, page_get w url = PageImages images ->
                  images = [] \/ makedirs w (path_join save_folder logos_dirname) <> None) ->
  progress_values (run w url save_folder) = []
  /\ fetch_count (run w url save_folder) = 0
  /\ write_count (run w url save_folder) = 0
  /\ (forall fs fs',
         fs_run (run w url save_folder) fs fs' ->
         files fs' = files fs
         /\ (forall q, q ∈ dirs fs -> q ∈ dirs fs')
         /\ (forall q, q ∈ dirs fs' ->
                       q ∈ dirs fs
                       \/ (String.prefix q (path_join save_folder logos_dirname) = true
                           /\ q <> path_join save_folder logos_dirname))
         /\ ((forall images, page_get w url = PageImages images -> images = []) ->
             fs' = fs)).
Proof.
  intros Hno.
  assert (Hsame : forall msg fs fs',
             fs_run [EvPageGet url; EvStatus msg] fs fs' -> fs' = fs).
  { intros msg fs fs' (m1 & -> & m2 & -> & ->). reflexivity. }
  destruct (run_cases w url save_folder)
    as [(e & _ & ->)|[(e & _ & ->)|[(_ & ->)|[(images & e & Hp & Hne & _ & ->)
        |(images & Hp & Hne & Hm & _)]]]].
  - repeat split; try (apply Hsame in H; subst fs'; auto).
  - repeat split; try (apply Hsame in H; subst fs'; auto).
  - repeat split; try (apply Hsame in H; subst fs'; auto).
  - split; [reflexivity|]. split; [reflexivity|]. split; [reflexivity|].
    intros fs fs' (m1 & -> & m2 & (Hf & Hkeep & _ & Hnew) & m3 & -> & ->).
    split; [exact Hf|]. split; [exact Hkeep|]. split.
    + intros q Hq. destruct (Hnew _ Hq) as [H|[H1 H2]]; [left; exact H|].
      right. split; [exact H1|]. apply H2. reflexivity.
    + intros Hempty. destruct (Hne (Hempty _ Hp)).
  - destruct (Hno _ Hp) as [H|H]; contradiction.
Qed.

Lemma unreachable_page_touches_no_file :
  progress_values (run unreachable wiki_url home) = []
  /\ fetch_count (run unreachable wiki_url home) = 0
  /\ write_count (run unreachable wiki_url home) = 0
  /\ (forall fs fs',
         fs_run (run unreachable wiki_url home) fs fs' ->
         files fs' = files fs
         /\ (forall q, q ∈ dirs fs -> q ∈ dirs fs')
         /\ (forall q, q ∈ dirs fs' ->
                       q ∈ dirs fs
                       \/ (String.prefix q (path_join home logos_dirname) = true
                           /\ q <> path_join home logos_dirname))
         /\ ((forall images, page_get unreachable wiki_url = PageImages images ->
                             images = []) ->
             fs' = fs)).
Proof.
  apply run_without_loop_touches_no_file. intros images H. discriminate H.
Defined.

Lemma saved_indices_length (w : World) (total_images : nat) (logos_folder : string)
    (images : list Img) (idx : nat) :
  length (saved_indices w total_images logos_folder idx images) <= length images.
Proof.
  revert idx. induction images as [|img rest IH]; intros idx; cbn [saved_indices length].
  - lia.
  - rewrite length_app. specialize (IH (S idx)).
    destruct (step_saved _); cbn [length]; lia.
Qed.

(** X9.  A run that is not cut short ends with the summary of its
    successful writes: the number in "Downloaded <n> logos ..." is the
    number of files written without error, at most the number of [img]
    elements. *)
Theorem summary_counts_the_saved_files (w : World) (url save_folder : string)
    (images : list Img) :
  page_get w url = PageImages images ->
  completes w url save_folder = true ->
  last (run w url save_folder) =
    Some (EvStatus (summary (saved_count (run w url save_folder))))
  /\ saved_count (run w url save_folder) <= length images.
Proof.
  intros Hp Hc.
  destruct (completes_inv _ _ _ Hc) as (images' & Hp' & Hne & Hm & Hrun).
  rewrite Hp in Hp'. injection Hp' as <-.
  rewrite (run_started _ _ _ _ Hp Hne Hm).
  rewrite loop_running by (intros; apply Hrun; lia).
  change (saved_count (?a :: ?b :: EvProgress 0 :: ?l)) with (saved_count l).
  rewrite saved_count_app, body_saved_count.
  change (saved_count [EvProgress 100; EvStatus ?m]) with 0.
  rewrite Nat.add_0_r. cbn [Nat.add]. split.
  - change (?a :: ?b :: ?c :: ?body ++ [?p; ?s]) with ([a; b; c] ++ body ++ [p] ++ [s]).
    rewrite !app_assoc. apply last_snoc.
  - apply saved_indices_length.
Qed.

Lemma summary_counts_the_saved_files_of_scenario :
  last (run scenario wiki_url home) =
    Some (EvStatus (summary (saved_count (run scenario wiki_url home))))
  /\ saved_count (run scenario wiki_url home) <= 3.
Proof.
  apply (summary_counts_the_saved_files scenario wiki_url home
           [inline_img; logo1_img; bare_img]); vm_compute; reflexivity.
Defined.

Lemma saved_count_cons (e : Event) (t : list Event) :
  saved_count (e :: t) = (if is_saved e then 1 else 0) + saved_count t.
Proof. unfold saved_count. cbn [List.filter]. destruct (is_saved e); reflexivity. Qed.

Lemma all_saved_counts (t : list Event) :
  all_saved t = true -> write_count t = saved_count t.
Proof.
  induction t as [|e t IH]; [reflexivity|].
  unfold all_saved. cbn [forallb]. intros H. apply andb_prop in H. destruct H as [He Ht].
  specialize (IH Ht). unfold write_count, saved_count in *. cbn [List.filter].
  destruct e as [u|q ok|q|m|i u|i q d [|]]; cbn [is_write is_saved length] in *;
    try exact IH; [f_equal; exact IH|discriminate He].
Qed.

(** X10.  During a run the number of files grows by at most the number of
    files the run opens, and by at most the number it reports as saved when
    all its writes go through.  It can grow by less: two candidates with the
    same file name are counted twice and leave one file. *)
Theorem files_grow_by_at_most_the_writes (w : World) (url save_folder : string)
    (fs fs' : FS) :
  fs_run (run w url save_folder) fs fs' ->
  size (files fs') <= size (files fs) + write_count (run w url save_folder)
  /\ (all_saved (run w url save_folder) = true ->
      size (files fs') <= size (files fs) + saved_count (run w url save_folder))
  /\ saved_count (run twice_logo1 wiki_url home) = 2
  /\ (forall fs2, fs_run (run twice_logo1 wiki_url home) empty_fs fs2 ->
                  files fs2 = {[ logo1_path := payload 6000 ]}
                  /\ size (files fs2) = 1).
Proof.
  intros Hrun. pose proof (fs_run_size _ _ _ Hrun) as Hsize.
  split; [exact Hsize|]. split; [|split].
  - intros Hall. rewrite <- (all_saved_counts _ Hall). exact Hsize.
  - vm_compute. reflexivity.
  - intros fs2 Hrun2.
    assert (Hall : all_saved (run twice_logo1 wiki_url home) = true)
      by (vm_compute; reflexivity).
    assert (Hf : files fs2 = {[ logo1_path := payload 6000 ]}).
    { apply map_eq. intros p. rewrite (fs_run_all_saved _ _ _ p Hall Hrun2).
      replace (attempts (run twice_logo1 wiki_url home))
        with [(0, logo1_path, payload 6000); (1, logo1_path, payload 6000)]
        by (vm_compute; reflexivity).
      cbn [last_to]. destruct (String.eqb_spec logo1_path p) as [<-|Hne].
      - symmetry. apply lookup_singleton_eq.
      - rewrite lookup_singleton_ne by exact Hne. reflexivity. }
    split; [exact Hf|]. rewrite Hf. apply map_size_singleton.
Qed.

Lemma files_grow_by_at_most_one_in_scenario :
  size (files disk_after) <= size (files disk_before) + write_count (run scenario wiki_url home).
Proof.
  apply (proj1 (files_grow_by_at_most_the_writes scenario wiki_url home
                  disk_before disk_after scenario_on_disk)).
Defined.

(** X11.  A run stopped at the check of candidate [c] did exactly the work
    of the candidates before [c]: after the page fetch, the creation of the
    folder and the progress value 0 come the events of iterations 0 to
    [c - 1], then the cancellation message, and no value 100. *)
Theorem canceled_run_is_a_prefix (w : World) (url save_folder : string)
    (images : list Img) (c : nat) :
  page_get w url = PageImages images ->
  makedirs w (path_join save_folder logos_dirname) = None ->
  c < length images ->
  (forall j, j < c -> is_running w j = true) ->
  is_running w c = false ->
  run w url save_folder =
  EvPageGet url :: EvMakedirs (path_join save_folder logos_dirname) true ::
  EvProgress 0 ::
  body_events w (length images) (path_join save_folder logos_dirname) 0 (take c images)
  ++ [EvStatus "Download canceled."].
Proof.
  intros Hp Hm Hc Hrun Hstop.
  assert (Hne : images <> []) by (intros ->; cbn in Hc; lia).
  rewrite (run_started _ _ _ _ Hp Hne Hm). do 3 f_equal.
  apply loop_stopped; [exact Hc| |exact Hstop].
  intros j _ Hj. apply Hrun. exact Hj.
Qed.

Lemma canceled_after_first_of_three :
  run stopped_during_first wiki_url home =
  EvPageGet wiki_url :: EvMakedirs (path_join home logos_dirname) true ::
  EvProgress 0 ::
  body_events stopped_during_first 3 (path_join home logos_dirname) 0 [logo1_img]
  ++ [EvStatus "Download canceled."].
Proof.
  apply (canceled_run_is_a_prefix stopped_during_first wiki_url home
           [logo1_img; logo1_img; bare_img] 1).
  - reflexivity.
  - reflexivity.
  - cbn. lia.
  - intros j Hj. destruct j; [reflexivity|lia].
  - reflexivity.
Defined.

(** ** How far the progress value is from the exact quotient *)

Module Binary64Error.
Import Binary64 Binary64Facts.
Local Open Scope Q_scope.

Ltac qcmp H :=
  first [apply <- Qeq_alt in H | apply <- Qlt_alt in H | apply <- Qgt_alt in H].

Lemma rne_near (x : Q) : x - (1 # 2) <= inject_Z (rne x) /\ inject_Z (rne x) <= x + (1 # 2).
Proof.
  pose proof (Qfloor_le x) as Hlo. pose proof (Qlt_floor x) as Hhi.
  rewrite inject_Z_plus in Hhi. change (inject_Z 1) with 1 in Hhi.
  unfold rne.
  destruct (Qcompare (x - inject_Z (Qfloor x)) (1 # 2)) eqn:C; qcmp C.
  - destruct (Z.even (Qfloor x)); [lra|].
    rewrite inject_Z_plus. change (inject_Z 1) with 1. lra.
  - lra.
  - rewrite inject_Z_plus. change (inject_Z 1) with 1. lra.
Qed.

Lemma round_positive (x : Q) : 0 < x -> round x = round_pos x.
Proof.
  intros Hx. unfold round. apply Qgt_alt in Hx. rewrite Hx. reflexivity.
Qed.

(** Rounding moves a positive number by at most one part in [2 ^ 53]. *)
Lemma round_pos_error (x : Q) :
  0 < x ->
  x * (1 - (1 # 9007199254740992)) <= round_pos x
  /\ round_pos x <= x * (1 + (1 # 9007199254740992)).
Proof.
  intros Hx. destruct (ilog2_spec x Hx) as [Hlo _].
  unfold round_pos. set (e := (ilog2 x - (prec - 1))%Z).
  destruct (rne_near (x * 2 ^ (- e))) as [Hm1 Hm2].
  set (m := inject_Z (rne (x * 2 ^ (- e)))) in *.
  pose proof (pow2_pos e) as Hp. pose proof (pow2_pos (- e)) as Hpm.
  assert (Hinv : 2 ^ (- e) * 2 ^ e == 1).
  { rewrite <- pow2_add. replace (- e + e)%Z with 0%Z by ring. reflexivity. }
  assert (Hbig : 2 ^ e * 4503599627370496 <= x).
  { assert (E : 2 ^ ilog2 x == 2 ^ e * 2 ^ 52).
    { rewrite <- pow2_add. unfold e, prec.
      replace (ilog2 x - (53 - 1) + 52)%Z with (ilog2 x) by ring. reflexivity. }
    rewrite E in Hlo. exact Hlo. }
  assert (Hx' : x * 2 ^ (- e) * 2 ^ e == x).
  { rewrite <- Qmult_assoc, Hinv. ring. }
  assert (H1 : (x * 2 ^ (- e) - (1 # 2)) * 2 ^ e <= m * 2 ^ e)
    by (apply Qmult_le_compat_r; lra).
  assert (H2 : m * 2 ^ e <= (x * 2 ^ (- e) + (1 # 2)) * 2 ^ e)
    by (apply Qmult_le_compat_r; lra).
  assert (E1 : (x * 2 ^ (- e) - (1 # 2)) * 2 ^ e == x - (1 # 2) * 2 ^ e)
    by (rewrite <- Hx' at 2; ring).
  assert (E2 : (x * 2 ^ (- e) + (1 # 2)) * 2 ^ e == x + (1 # 2) * 2 ^ e)
    by (rewrite <- Hx' at 2; ring).
  rewrite E1 in H1. rewrite E2 in H2. split; lra.
Qed.

Lemma floor_lt (y : Q) (k : Z) : y < inject_Z k + 1 -> (Qfloor y <= k)%Z.
Proof.
  intros H. pose proof (Qfloor_le y) as Hf.
  assert (Hk : inject_Z (Qfloor y) < inject_Z (k + 1)).
  { rewrite inject_Z_plus. change (inject_Z 1) with 1. lra. }
  rewrite <- Zlt_Qlt in Hk. lia.
Qed.

Lemma floor_ge (y : Q) (k : Z) : inject_Z k <= y -> (k <= Qfloor y)%Z.
Proof. intros H. apply Qfloor_resp_le in H. rewrite Qfloor_Z in H. exact H. Qed.

Lemma round_eq (x y : Q) : 0 <= x -> x == y -> round x == round y.
Proof.
  intros Hx Hxy. apply Qle_antisym; apply round_mono; lra.
Qed.

End Binary64Error.

(** X12.  On a page with at most [2 ^ 44] images the progress value of
    candidate [idx] is the exact quotient [floor(100 * (idx + 1) / total)]
    whenever [total] does not divide [100 * (idx + 1)]; when it does, the
    value is the exact quotient or one less (28 for the 29th of 100). *)
Theorem progress_percent_is_nearly_exact (idx total_images : nat) :
  idx < total_images ->
  (Z.of_nat total_images <= 17592186044416)%Z ->
  (exact_percent idx total_images - 1 <= progress_percent idx total_images
   <= exact_percent idx total_images)%Z
  /\ ((100 * (Z.of_nat idx + 1)) mod Z.of_nat total_images <> 0 ->
      progress_percent idx total_images = exact_percent idx total_images)%Z.
Proof.
  intros Hidx Hmax.
  unfold progress_percent, exact_percent, Binary64.mul, Binary64.truediv.
  set (a := (Z.of_nat idx + 1)%Z). set (n := Z.of_nat total_images).
  assert (Ha : (0 < a)%Z) by (unfold a; lia).
  assert (Han : (a <= n)%Z) by (unfold a, n; lia).
  assert (Hn : (0 < n)%Z) by lia.
  set (K := (100 * a / n)%Z).
  assert (HK1 : (n * K <= 100 * a)%Z) by (apply Z.mul_div_le; lia).
  assert (HK2 : (100 * a < n * (K + 1))%Z).
  { replace (K + 1)%Z with (Z.succ K) by lia. apply Z.mul_succ_div_gt. lia. }
  assert (HN : (0 < inject_Z n)%Q).
  { change 0%Q with (inject_Z 0). rewrite <- Zlt_Qlt. exact Hn. }
  assert (HNz : ~ (inject_Z n == 0)%Q) by lra.
  set (r := (inject_Z a / inject_Z n)%Q).
  assert (Hr0 : (0 < r)%Q).
  { unfold r. apply Qlt_shift_div_l; [exact HN|].
    rewrite Qmult_0_l. change 0%Q with (inject_Z 0). rewrite <- Zlt_Qlt. exact Ha. }
  assert (Hr1 : (r <= 1)%Q) by (apply Binary64Facts.ratio_le_1; assumption).
  set (t := (1 / inject_Z n)%Q).
  assert (Ht : ((1 # 17592186044416) <= t)%Q).
  { unfold t. apply Qle_shift_div_l; [exact HN|].
    assert (inject_Z n <= inject_Z 17592186044416)%Q by (rewrite <- Zle_Qle; exact Hmax).
    change (inject_Z 17592186044416) with (17592186044416 # 1)%Q in H. lra. }
  assert (EX : (inject_Z (100 * a) / inject_Z n == 100 * r)%Q).
  { unfold r. rewrite inject_Z_mult. change (inject_Z 100) with 100%Q. field. exact HNz. }
  assert (Hup : (100 * r <= inject_Z K + 1 - t)%Q).
  { rewrite <- EX.
    apply Qle_trans with (inject_Z (n * (K + 1) - 1) / inject_Z n)%Q.
    - apply Binary64Facts.ratio_mono; lia.
    - unfold t, Z.sub.
      rewrite inject_Z_plus, inject_Z_mult, inject_Z_plus, inject_Z_opp.
      change (inject_Z 1) with 1%Q. apply Qle_lteq. right. field. exact HNz. }
  assert (Hlow : (inject_Z K <= 100 * r)%Q).
  { rewrite <- EX.
    apply Qle_trans with (inject_Z (n * K) / inject_Z n)%Q.
    - rewrite inject_Z_mult. apply Qle_lteq. right. field. exact HNz.
    - apply Binary64Facts.ratio_mono; lia. }
  assert (HK0 : (0 <= inject_Z K)%Q).
  { change 0%Q with (inject_Z 0). rewrite <- Zle_Qle. apply Z.div_pos; lia. }
  rewrite (Binary64Error.round_positive r Hr0).
  destruct (Binary64Error.round_pos_error r Hr0) as [Hy1 Hy1'].
  set (y1 := Binary64.round_pos r) in *.
  assert (Hy1p : (0 < y1 * 100)%Q) by lra.
  rewrite (Binary64Error.round_positive _ Hy1p).
  destruct (Binary64Error.round_pos_error _ Hy1p) as [Hy2 Hy2'].
  set (y2 := Binary64.round_pos (y1 * 100)) in *.
  assert (Hy2p : (0 <= y2)%Q) by lra.
  unfold Binary64.trunc. apply Qle_bool_iff in Hy2p. rewrite Hy2p.
  assert (Hfl : (Qfloor y2 <= K)%Z) by (apply Binary64Error.floor_lt; lra).
  split.
  - split; [|exact Hfl].
    assert (K - 1 <= Qfloor y2)%Z; [|lia].
    apply Binary64Error.floor_ge. unfold Z.sub. rewrite inject_Z_plus, inject_Z_opp.
    change (inject_Z 1) with 1%Q. lra.
  - intros Hmod.
    assert (K <= Qfloor y2)%Z; [|lia].
    apply Binary64Error.floor_ge.
    assert (Hlow' : (inject_Z K + t <= 100 * r)%Q).
    { rewrite <- EX.
      apply Qle_trans with (inject_Z (n * K + 1) / inject_Z n)%Q.
      - unfold t. rewrite inject_Z_plus, inject_Z_mult.
        change (inject_Z 1) with 1%Q. apply Qle_lteq. right. field. exact HNz.
      - apply Binary64Facts.ratio_mono; [lia|].
        pose proof (Z.div_mod (100 * a) n ltac:(lia)) as Hdm.
        pose proof (Z.mod_pos_bound (100 * a) n Hn) as Hb.
        fold K in Hdm. lia. }
    lra.
Qed.

Lemma progress_percent_of_the_second_of_three :
  (exact_percent 1 3 - 1 <= progress_percent 1 3 <= exact_percent 1 3)%Z
  /\ ((100 * (Z.of_nat 1 + 1)) mod Z.of_nat 3 <> 0 ->
      progress_percent 1 3 = exact_percent 1 3)%Z.
Proof.
  apply progress_percent_is_nearly_exact.
  - lia.
  - vm_compute. discriminate.
Defined.

(** X13.  The progress value of the last candidate is exactly 100: a run
    whose last candidate is saved sends 100 twice. *)
Theorem progress_percent_of_the_last_is_100 (total_images : nat) :
  0 < total_images -> progress_percent (total_images - 1) total_images = 100%Z.
Proof.
  intros Hn. unfold progress_percent, Binary64.mul, Binary64.truediv.
  replace (Z.of_nat (total_images - 1) + 1)%Z with (Z.of_nat total_images) by lia.
  set (N := inject_Z (Z.of_nat total_images)).
  assert (HN : (0 < N)%Q).
  { unfold N. change 0%Q with (inject_Z 0). rewrite <- Zlt_Qlt. lia. }
  assert (E1 : (N / N == 1)%Q) by (field; lra).
  assert (R1 : (Binary64.round (N / N) == 1)%Q).
  { rewrite (Binary64Error.round_eq (N / N) 1) by lra. apply Binary64Facts.round_1. }
  assert (R2 : (Binary64.round (Binary64.round (N / N) * 100) == 100)%Q).
  { rewrite (Binary64Error.round_eq (Binary64.round (N / N) * 100) 100) by lra.
    apply Binary64Facts.round_100. }
  set (y := Binary64.round (Binary64.round (N / N) * 100)) in *.
  pose proof (Binary64Facts.trunc_mono y 100 ltac:(lra) ltac:(lra)) as H1.
  pose proof (Binary64Facts.trunc_mono 100 y ltac:(lra) ltac:(lra)) as H2.
  change (Binary64.trunc 100) with 100%Z in H1, H2. lia.
Qed.

Lemma progress_percent_of_the_last_of_three : progress_percent 2 3 = 100%Z.
Proof. apply (progress_percent_of_the_last_is_100 3). lia. Defined.

(** ** The window *)

(** Every run sends exactly one status message, and sends it last. *)
Lemma run_single_status (w : World) (url save_folder : string) :
  exists msg, statuses (run w url save_folder) = [msg]
              /\ last (run w url save_folder) = Some (EvStatus msg).
Proof.
  destruct (run_cases w url save_folder)
    as [(e & _ & ->)|[(e & _ & ->)|[(_ & ->)|[(images & e & _ & _ & _ & ->)
        |(images & _ & _ & _ & ->)]]]]; try (eexists; split; reflexivity).
  destruct (loop_terminal w (length images) (path_join save_folder logos_dirname)
              images 0 0) as (msg & Hlast & Hst).
  exists msg. split.
  - change (statuses (?a :: ?b :: EvProgress 0 :: ?l)) with (statuses l). exact Hst.
  - change (?a :: ?b :: ?c :: loop ?w0 ?n ?f 0 ?l 0)
      with ([a; b; c] ++ loop w0 n f 0 l 0).
    rewrite last_app, Hlast. reflexivity.
Qed.

Module Window.
Import FullSizeLogoDownloader.

Lemma reachable_call (win : Window) (s : Slot) : reachable win -> reachable (call win s).
Proof.
  intros Hwin. pose proof Hwin as (Hb & Hu & Hc & Hw).
  destruct s as [folder| |running|bar_now value|message]; cbn [call].
  - unfold select_folder. destruct (is_empty folder); [exact Hwin|].
    split; [exact Hb|]. split; [exact Hu|]. split; [exact Hc|exact Hw].
  - unfold start_download. destruct (is_empty (save_folder win)) eqn:He.
    + split; [exact Hb|]. split; [exact Hu|]. split; [exact Hc|exact Hw].
    + split; [reflexivity|]. split; [exact Hu|]. split.
      * intros _. eexists. split; reflexivity.
      * cbn [worker]. intros k Hk. injection Hk as <-. cbn. split; [exact He|exact Hu].
  - unfold cancel_download. destruct (worker win) as [k0|] eqn:Hk0; [|exact Hwin].
    destruct running; [|exact Hwin].
    split; [reflexivity|]. split; [exact Hu|]. split.
    + cbn. discriminate.
    + cbn [worker]. intros k Hk. injection Hk as <-. cbn. apply Hw. reflexivity.
  - split; [exact Hb|]. split; [exact Hu|]. split; [exact Hc|exact Hw].
  - split; [reflexivity|]. split; [exact Hu|]. split.
    + cbn. discriminate.
    + exact Hw.
Qed.

(** X14.  Whatever slots are called, in whatever order, from the window as
    [init_ui] leaves it: exactly one of the Download and Cancel buttons is
    enabled; while Cancel is enabled there is a worker whose flag is still
    set; and every worker the window holds was created with the fixed wiki
    URL and a non-empty destination folder. *)
Theorem window_invariant (slots : list Slot) :
  download_btn (calls init_ui slots) = negb (cancel_btn (calls init_ui slots))
  /\ (cancel_btn (calls init_ui slots) = true ->
      exists k, worker (calls init_ui slots) = Some k /\ worker_is_running k = true)
  /\ (forall k, worker (calls init_ui slots) = Some k ->
                is_empty (worker_save_folder k) = false /\ worker_url k = wiki_url).
Proof.
  assert (Hinit : reachable init_ui).
  { split; [reflexivity|]. split; [reflexivity|]. split; [discriminate|].
    intros k Hk. discriminate Hk. }
  assert (H : forall win, reachable win -> reachable (calls win slots)).
  { unfold calls. induction slots as [|s slots IH]; intros win Hwin; cbn [fold_left].
    - exact Hwin.
    - apply IH, reachable_call, Hwin. }
  destruct (H _ Hinit) as (Hb & _ & Hc & Hw).
  split; [exact Hb|]. split; [exact Hc|]. exact Hw.
Qed.

Lemma calls_cons (win : Window) (s : Slot) (slots : list Slot) :
  calls win (s :: slots) = calls (call win s) slots.
Proof. reflexivity. Qed.

Lemma calls_app (win : Window) (s1 s2 : list Slot) :
  calls win (s1 ++ s2) = calls (calls win s1) s2.
Proof. apply fold_left_app. Qed.

(** Once the buttons are back, only a new [start_download] changes them. *)
Lemma buttons_stay (slots : list Slot) (win : Window) :
  existsb is_start slots = false ->
  download_btn win = true -> cancel_btn win = false ->
  download_btn (calls win slots) = true /\ cancel_btn (calls win slots) = false.
Proof.
  revert win. induction slots as [|s slots IH]; intros win Hns Hd Hc; [auto|].
  cbn [existsb] in Hns. apply orb_false_elim in Hns. destruct Hns as [Hs Hns].
  cbn [calls fold_left]. apply IH; [exact Hns| |].
  - destruct s as [folder| |running|bar_now value|message]; cbn [call];
      try discriminate Hs; try reflexivity.
    + unfold select_folder. destruct (is_empty folder); [exact Hd|exact Hd].
    + unfold cancel_download. destruct (worker win); [destruct running|]; auto.
    + exact Hd.
  - destruct s as [folder| |running|bar_now value|message]; cbn [call];
      try discriminate Hs; try reflexivity.
    + unfold select_folder. destruct (is_empty folder); [exact Hc|exact Hc].
    + unfold cancel_download. destruct (worker win); [destruct running|]; auto.
    + exact Hc.
Qed.

(** X15.  When the status message of a run has been delivered and no new
    download has been started since, the Download button is enabled and the
    Cancel button is disabled, whatever other slots were called before,
    between or after the signals of the worker. *)
Theorem window_is_ready_after_a_run (w : World) (page save : string)
    (win : Window) (slots : list Slot) :
  (forall msg, In msg (statuses (run w page save)) -> In (UpdateStatus msg) slots) ->
  existsb is_start slots = false ->
  download_btn (calls win slots) = true /\ cancel_btn (calls win slots) = false.
Proof.
  intros Hdel Hns.
  destruct (run_single_status w page save) as (msg & Hst & _).
  assert (Hin : In (UpdateStatus msg) slots) by (apply Hdel; rewrite Hst; left; reflexivity).
  apply in_split in Hin. destruct Hin as (pre & post & ->).
  rewrite existsb_app in Hns. apply orb_false_elim in Hns. destruct Hns as [_ Hns].
  cbn [existsb is_start orb] in Hns.
  rewrite calls_app. cbn [calls fold_left call].
  apply buttons_stay; [exact Hns|reflexivity|reflexivity].
Qed.

Lemma window_is_ready_after_the_scenario :
  download_btn
    (calls (start_download (select_folder home init_ui))
       (signals (fun _ => 0%Z) 0 (run scenario wiki_url home) ++ [CancelDownload false]))
  = true
  /\ cancel_btn
       (calls (start_download (select_folder home init_ui))
          (signals (fun _ => 0%Z) 0 (run scenario wiki_url home) ++ [CancelDownload false]))
     = false.
Proof.
  apply (window_is_ready_after_a_run scenario wiki_url home).
  - intros msg Hin. vm_compute in Hin. destruct Hin as [<-|[]]. vm_compute. auto 10.
  - vm_compute. reflexivity.
Defined.

(** What the signals of a trace leave on the label and the buttons. *)
Lemma calls_signals_status (t : list Event) (bar : nat -> Z) (k : nat) (win : Window) :
  match last (statuses t) with
  | Some msg =>
      download_btn (calls win (signals bar k t)) = true
      /\ cancel_btn (calls win (signals bar k t)) = false
      /\ status_label (calls win (signals bar k t)) = "Status: " +:+ msg
      /\ status_color (calls win (signals bar k t)) = message_color msg
  | None =>
      download_btn (calls win (signals bar k t)) = download_btn win
      /\ cancel_btn (calls win (signals bar k t)) = cancel_btn win
      /\ status_label (calls win (signals bar k t)) = status_label win
      /\ status_color (calls win (signals bar k t)) = status_color win
  end.
Proof.
  revert k win. induction t as [|e t IH]; intros k win.
  - cbn. auto.
  - destruct e as [u|q ok|p|m|idx u|idx q d ok]; cbn [signals].
    + exact (IH (S k) win).
    + exact (IH (S k) win).
    + change (statuses (EvProgress p :: t)) with (statuses t).
      rewrite calls_cons. cbn [call]. specialize (IH (S k) (animate_progress (bar k) p win)).
      destruct (last (statuses t)); exact IH.
    + change (statuses (EvStatus m :: t)) with (m :: statuses t). rewrite last_cons.
      rewrite calls_cons. cbn [call]. specialize (IH (S k) (update_status m win)).
      destruct (last (statuses t)); exact IH.
    + exact (IH (S k) win).
    + exact (IH (S k) win).
Qed.

(** What they leave on the animation of the bar and on the worker. *)
Lemma calls_signals_animation (t : list Event) (bar : nat -> Z) (k : nat) (win : Window) :
  worker (calls win (signals bar k t)) = worker win
  /\ match last (progress_values t) with
     | Some p => exists a, animation (calls win (signals bar k t)) = Some a
                           /\ end_value a = p
     | None => animation (calls win (signals bar k t)) = animation win
     end.
Proof.
  revert k win. induction t as [|e t IH]; intros k win.
  - cbn. auto.
  - destruct e as [u|q ok|p|m|idx u|idx q d ok]; cbn [signals];
      try exact (IH (S k) win).
    + change (progress_values (EvProgress p :: t)) with (p :: progress_values t).
      rewrite last_cons. rewrite calls_cons. cbn [call].
      destruct (IH (S k) (animate_progress (bar k) p win)) as [Hw Ha]. split; [exact Hw|].
      destruct (last (progress_values t)); [exact Ha|]. rewrite Ha. eexists. split; reflexivity.
    + change (progress_values (EvStatus m :: t)) with (progress_values t).
      rewrite calls_cons. cbn [call].
      destruct (IH (S k) (update_status m win)) as [Hw Ha]. split; [exact Hw|].
      destruct (last (progress_values t)); exact Ha.
Qed.

(** X16.  A download started with a folder selected and left alone until
    the worker is done ends with the window ready for the next one: the
    Download button enabled, Cancel disabled, the label showing "Status: "
    and the one status message of the run in the colour of that message,
    and the bar animated towards the last progress value the run sent. *)
Theorem download_shows_the_final_status (w : World) (bar : nat -> Z) (win : Window) :
  is_empty (save_folder win) = false ->
  exists msg,
    statuses (run w (url win) (save_folder win)) = [msg]
    /\ download_btn (download w bar win) = true
    /\ cancel_btn (download w bar win) = false
    /\ status_label (download w bar win) = "Status: " +:+ msg
    /\ status_color (download w bar win) = message_color msg
    /\ worker (download w bar win) = Some (new_worker (url win) (save_folder win))
    /\ (forall p, last (progress_values (run w (url win) (save_folder win))) = Some p ->
                  exists a, animation (download w bar win) = Some a /\ end_value a = p).
Proof.
  intros He. unfold download, start_download. rewrite He. cbn [worker worker_url worker_save_folder new_worker].
  destruct (run_single_status w (url win) (save_folder win)) as (msg & Hst & _).
  exists msg. split; [exact Hst|].
  match goal with |- context [calls ?s (signals bar 0 ?t)] =>
    pose proof (calls_signals_status t bar 0 s) as Hs;
    pose proof (calls_signals_animation t bar 0 s) as [Hw Ha]
  end.
  rewrite Hst in Hs. cbn [last] in Hs. destruct Hs as (H1 & H2 & H3 & H4).
  repeat split; try assumption.
  intros p Hp. rewrite Hp in Ha. exact Ha.
Qed.

Lemma download_of_the_scenario_shows_the_summary :
  exists msg,
    statuses (run scenario (url (select_folder home init_ui))
                (save_folder (select_folder home init_ui))) = [msg]
    /\ download_btn (download scenario (fun _ => 0%Z) (select_folder home init_ui)) = true
    /\ cancel_btn (download scenario (fun _ => 0%Z) (select_folder home init_ui)) = false
    /\ status_label (download scenario (fun _ => 0%Z) (select_folder home init_ui)) =
       "Status: " +:+ msg
    /\ status_color (download scenario (fun _ => 0%Z) (select_folder home init_ui)) =
       message_color msg
    /\ worker (download scenario (fun _ => 0%Z) (select_folder home init_ui)) =
       Some (new_worker (url (select_folder home init_ui))
               (save_folder (select_folder home init_ui)))
    /\ (forall p,
           last (progress_values
                   (run scenario (url (select_folder home init_ui))
                      (save_folder (select_folder home init_ui)))) = Some p ->
           exists a,
             animation (download scenario (fun _ => 0%Z) (select_folder home init_ui)) = Some a
             /\ end_value a = p).
Proof.
  apply download_shows_the_final_status. reflexivity.
Defined.

(** X17.  The colour of the final message: green after a run that was not
    cut short, red after a cancelled one, dark when the page has no image;
    the message of an error is shown in the colour its exception text
    would get on its own, so dark unless that text holds "Downloaded" or
    "canceled". *)
Theorem colors_of_the_final_status (w : World) (page save : string) :
  (completes w page save = true ->
   exists msg, statuses (run w page save) = [msg] /\ message_color msg = Green)
  /\ (forall images j,
         page_get w page = PageImages images ->
         makedirs w (path_join save logos_dirname) = None ->
         j < length images -> is_running w j = false ->
         statuses (run w page save) = ["Download canceled."]
         /\ message_color "Download canceled." = Red)
  /\ (page_get w page = PageImages [] ->
      exists msg, statuses (run w page save) = [msg] /\ message_color msg = Dark)
  /\ (forall e, message_color ("Network Error: " +:+ e) = message_color e
                /\ message_color ("Error: " +:+ e) = message_color e).
Proof.
  split; [|split; [|split]].
  - intros Hc. rewrite (completed_run_status _ _ _ Hc). eexists. split; [reflexivity|].
    reflexivity.
  - intros images j Hp Hm Hj Hstop. split; [|reflexivity].
    assert (Hne : images <> []) by (intros ->; cbn in Hj; lia).
    rewrite (run_started _ _ _ _ Hp Hne Hm).
    change (statuses (?a :: ?b :: EvProgress 0 :: ?l)) with (statuses l).
    destruct (loop_terminal w (length images) (path_join save logos_dirname) images 0 0)
      as (msg & Hlast & ->).
    rewrite (loop_canceled _ _ _ _ _ _ j) in Hlast; [|lia|lia|exact Hstop].
    injection Hlast as <-. reflexivity.
  - intros Hp. rewrite (run_no_images _ _ _ Hp). eexists. split; reflexivity.
  - intros e. split; reflexivity.
Qed.

End Window.

(** ** What a run leaves on disk *)





